(** * pmxt Python SDK: local filter and match engine, sidecar supervisor

    A shallow embedding of
      - [sdks/python/pmxt/models.py]  ([MarketList.match]),
      - [sdks/python/pmxt/client.py]  ([Exchange.filter_markets],
        [Exchange.filter_events], the response and credential helpers,
        [Exchange.load_markets] and the port discovery step of
        [Exchange.__init__]),
      - [sdks/python/pmxt/server_manager.py] ([ServerManager]),
    followed by the properties of these functions.

    Conventions of the embedding.
      - A Python [str] is the list of its characters, each character being
        its Unicode code point; lengths and slices count characters.
        [str.lower] depends on the Unicode tables of the interpreter: it is a
        parameter [lower] of every function that calls it, and nothing is
        assumed about it.
      - A Python number (an [int] or a finite [float]) is a rational of [Q];
        [<] and [>] are the exact order.
      - An exception is a class tag with the text [str(e)] gives; a call
        that can raise returns a [result].
      - The supervisor runs in a state and error monad over a [world]: the
        lock file, the process table, the clock, the health endpoint and the
        launcher. *)

From Stdlib Require Import ZArith QArith Lia Bool Btauto List String Ascii DecimalString.
From stdpp Require Import base option list gmap strings.

Set Warnings "-register-all,-notation-for-abbreviation".

(** ** Python primitives *)

Module Py.

(** A character is its code point, a number of [N]; a string is the list
    of its characters. *)
Notation str := (list N) (only parsing).

(** A string literal of the source text.  The literals of the modelled code
    are made of ASCII characters, whose code point is their byte. *)
Fixpoint lit (s : string) : str :=
  match s with
  | EmptyString => []
  | String c r => N_of_ascii c :: lit r
  end.

(** [a == b] on strings. *)
Fixpoint str_eqb (a b : str) : bool :=
  match a, b with
  | [], [] => true
  | x :: a', y :: b' => (x =? y)%N && str_eqb a' b'
  | _, _ => false
  end.

(** [s.startswith(sub)] *)
Fixpoint startswith (sub s : str) : bool :=
  match sub, s with
  | [], _ => true
  | x :: sub', y :: s' => (x =? y)%N && startswith sub' s'
  | _ :: _, [] => false
  end.

(** [sub in s] on strings. *)
Fixpoint str_in (sub s : str) : bool :=
  startswith sub s ||
  match s with
  | [] => false
  | _ :: r => str_in sub r
  end.

(** Truth value of a string: [bool(s)]. *)
Definition str_truthy (s : str) : bool :=
  match s with
  | [] => false
  | _ :: _ => true
  end.

(** [s[:n]] *)
Fixpoint slice_to (n : nat) (s : str) : str :=
  match n, s with
  | S k, c :: r => c :: slice_to k r
  | _, _ => []
  end.

(** [s.endswith(suffix)] *)
Definition endswith (s suffix : str) : bool :=
  (length suffix <=? length s)%nat &&
  str_eqb (drop (length s - length suffix) s) suffix.

(** [str(n)] for a non-negative integer. *)
Definition str_of_nat (n : nat) : str :=
  lit (NilZero.string_of_uint (Nat.to_uint n)).

(** The line feed of ["\n"]. *)
Definition nl : str := [10%N].

(** [sep.join(parts)] *)
Fixpoint join (sep : str) (parts : list str) : str :=
  match parts with
  | [] => []
  | [p] => p
  | p :: rest => p ++ sep ++ join sep rest
  end.

(** [enumerate(l)], counting from [i]. *)
Fixpoint enumerate_from {A : Type} (i : nat) (l : list A) : list (nat * A) :=
  match l with
  | [] => []
  | x :: r => (i, x) :: enumerate_from (S i) r
  end.

Definition enumerate {A : Type} (l : list A) : list (nat * A) :=
  enumerate_from 0 l.

(** [a < b] on numbers. *)
Definition num_lt (a b : Q) : bool := negb (Qle_bool b a).

(** Truth value of a number. *)
Definition num_truthy (a : Q) : bool := negb (Qeq_bool a 0).

(** Exception classes that occur in the modelled code.  [OSError] stands for
    itself and its subclasses ([FileNotFoundError], [PermissionError],
    [ProcessLookupError]). *)
Inductive exn_class : Type :=
| Exception
| ValueError
| TypeError
| AttributeError
| OverflowError
| OSError
| JSONDecodeError
| UnicodeDecodeError
| TimeoutExpired.

Record exn : Type := Exn { exn_cls : exn_class; exn_msg : str }.

Inductive result (A : Type) : Type :=
| Ok (a : A)
| Raise (e : exn).

Arguments Ok {A} a.
Arguments Raise {A} e.

Definition exn_class_eqb (a b : exn_class) : bool :=
  match a, b with
  | Exception, Exception | ValueError, ValueError | TypeError, TypeError
  | AttributeError, AttributeError | OverflowError, OverflowError
  | OSError, OSError | JSONDecodeError, JSONDecodeError
  | UnicodeDecodeError, UnicodeDecodeError
  | TimeoutExpired, TimeoutExpired => true
  | _, _ => false
  end.

(** [isinstance(e, cls)]: every class derives from [Exception];
    [JSONDecodeError] and [UnicodeDecodeError] derive from [ValueError]. *)
Definition isinstance (e : exn) (cls : exn_class) : bool :=
  match cls with
  | Exception => true
  | ValueError =>
      match exn_cls e with
      | ValueError | JSONDecodeError | UnicodeDecodeError => true
      | _ => false
      end
  | _ => exn_class_eqb (exn_cls e) cls
  end.

#[global] Instance result_ret : MRet result := @Ok.
#[global] Instance result_bind : MBind result := fun A B f r =>
  match r with
  | Ok a => f a
  | Raise e => Raise e
  end.

(** Python values as they come out of [json.loads]; [PNone] is [None]. *)
Inductive pyval : Type :=
| PNone
| PBool (b : bool)
| PInt (z : Z)
| PFloat (q : Q)
| PStr (s : str)
| PList (l : list pyval)
| PDict (d : gmap str pyval).

(** [bool(v)] *)
Definition truthy (v : pyval) : bool :=
  match v with
  | PNone => false
  | PBool b => b
  | PInt z => negb (z =? 0)%Z
  | PFloat q => num_truthy q
  | PStr s => str_truthy s
  | PList l => match l with [] => false | _ => true end
  | PDict d => negb (bool_decide (d = ∅))
  end.

(** The name Python prints for the type of a value. *)
Definition type_name (v : pyval) : str :=
  match v with
  | PNone => lit "NoneType"
  | PBool _ => lit "bool"
  | PInt _ => lit "int"
  | PFloat _ => lit "float"
  | PStr _ => lit "str"
  | PList _ => lit "list"
  | PDict _ => lit "dict"
  end.

(** [v.get(key, default)]: only a [dict] has the method. *)
Definition py_get (v : pyval) (key : str) (default : pyval) : result pyval :=
  match v with
  | PDict d => Ok (match d !! key with Some x => x | None => default end)
  | _ => Raise (Exn AttributeError
                  (lit "'" ++ type_name v ++
                   lit "' object has no attribute 'get'"))
  end.

End Py.
Export Py.

(** ** models.py *)

Module Models.

(** [datetime]: the instant in microseconds, and whether the value carries a
    time zone.  The ordering of an aware and a naive value raises
    [TypeError]. *)
Record datetime : Type := Datetime { dt_micros : Z; dt_aware : bool }.

Definition naive_aware_msg : str :=
  lit "can't compare offset-naive and offset-aware datetimes".

(** [a >= b] *)
Definition dt_ge (a b : datetime) : result bool :=
  if eqb (dt_aware a) (dt_aware b)
  then Ok (dt_micros b <=? dt_micros a)%Z
  else Raise (Exn TypeError naive_aware_msg).

(** [a <= b] *)
Definition dt_le (a b : datetime) : result bool :=
  if eqb (dt_aware a) (dt_aware b)
  then Ok (dt_micros a <=? dt_micros b)%Z
  else Raise (Exn TypeError naive_aware_msg).

(** [OutcomeType] *)
Inductive OutcomeType : Type := yes_key | no_key | up_key | down_key.

(** The literals accepted in [search_in]. *)
Inductive SearchField : Type :=
| title_field
| description_field
| category_field
| tags_field
| outcomes_field.

Definition SearchField_eqb (a b : SearchField) : bool :=
  match a, b with
  | title_field, title_field
  | description_field, description_field
  | category_field, category_field
  | tags_field, tags_field
  | outcomes_field, outcomes_field => true
  | _, _ => false
  end.

(** [@dataclass MarketOutcome] (the free-form [metadata] dictionary is not
    read by the modelled code and is left out). *)
Record MarketOutcome : Type := {
  outcome_id : str;
  label : str;
  price : Q;
  price_change_24h : option Q;
  outcome_market_id : option str
}.

(** [@dataclass UnifiedMarket] *)
Record UnifiedMarket : Type := {
  market_id : str;
  title : str;
  outcomes : list MarketOutcome;
  volume_24h : Q;
  liquidity : Q;
  url : str;
  description : option str;
  resolution_date : option datetime;
  volume : option Q;
  open_interest : option Q;
  image : option str;
  category : option str;
  tags : option (list str);
  yes : option MarketOutcome;
  no : option MarketOutcome;
  up : option MarketOutcome;
  down : option MarketOutcome
}.

(** [MinMax], [DateRange], [PriceFilter]: dictionaries whose keys may all be
    absent. *)
Record MinMax : Type := { mm_min : option Q; mm_max : option Q }.

Record DateRange : Type := {
  dr_before : option datetime;
  dr_after : option datetime
}.

Record PriceFilter : Type := {
  pf_outcome : option OutcomeType;
  pf_min : option Q;
  pf_max : option Q
}.

(** [MarketFilterCriteria]: [None] is an absent key. *)
Record MarketFilterCriteria : Type := {
  c_text : option str;
  c_search_in : option (list SearchField);
  c_volume_24h : option MinMax;
  c_volume : option MinMax;
  c_liquidity : option MinMax;
  c_open_interest : option MinMax;
  c_resolution_date : option DateRange;
  c_category : option str;
  c_tags : option (list str);
  c_price : option PriceFilter;
  c_price_change_24h : option PriceFilter
}.

(** One line of the list of titles:
    [f"{i+1}. {m.title[:70]}{'...' if len(m.title) > 70 else ''}"] *)
Definition title_line (im : nat * UnifiedMarket) : str :=
  str_of_nat (fst im + 1) ++ lit ". " ++ slice_to 70 (title (snd im)) ++
  (if (70 <? length (title (snd im)))%nat then lit "..." else lit "").

Definition titles_str (matches : list UnifiedMarket) : str :=
  join (nl ++ lit "  ") (map title_line (enumerate matches)).

Definition no_match_msg (query : str) : str :=
  lit "No markets matching '" ++ query ++ lit "'".

Definition multiple_match_msg (query : str)
    (matches : list UnifiedMarket) : str :=
  lit "Multiple markets matching '" ++ query ++ lit "' (" ++
  str_of_nat (length matches) ++ lit " matches):" ++ nl ++ lit "  " ++
  titles_str matches ++ nl ++ nl ++ lit "Please refine your search.".

Section Lower.

(** [str.lower] *)
Variable lower : str -> str.

(** [s and lower_query in s.lower()] for an optional string field. *)
Definition opt_str_hit (lower_query : str) (s : option str) : bool :=
  match s with
  | Some t => str_truthy t && str_in lower_query (lower t)
  | None => false
  end.

(** [m.tags and any(lower_query in t.lower() for t in m.tags)] *)
Definition tags_hit (lower_query : str) (ts : option (list str)) : bool :=
  match ts with
  | Some l => existsb (fun t => str_in lower_query (lower t)) l
  | None => false
  end.

(** [m.outcomes and any(lower_query in o.label.lower() for o in m.outcomes)] *)
Definition outcomes_hit (lower_query : str) (os : list MarketOutcome) : bool :=
  existsb (fun o => str_in lower_query (lower (label o))) os.

(** The test [match] makes for one field of one market. *)
Definition field_hit (lower_query : str) (m : UnifiedMarket)
    (field : SearchField) : bool :=
  match field with
  | title_field => str_truthy (title m) && str_in lower_query (lower (title m))
  | description_field => opt_str_hit lower_query (description m)
  | category_field => opt_str_hit lower_query (category m)
  | tags_field => tags_hit lower_query (tags m)
  | outcomes_field => outcomes_hit lower_query (outcomes m)
  end.

(** The inner loop of [match]: [for field in search_in], leaving at the
    first field that hits; the result tells whether [m] was appended. *)
Fixpoint scan_fields (lower_query : str) (m : UnifiedMarket)
    (search_in : list SearchField) : bool :=
  match search_in with
  | [] => false
  | field :: rest =>
      if field_hit lower_query m field then true
      else scan_fields lower_query m rest
  end.

(** The outer loop of [match]: the list [matches]. *)
Fixpoint collect_matches (lower_query : str) (search_in : list SearchField)
    (self : list UnifiedMarket) : list UnifiedMarket :=
  match self with
  | [] => []
  | m :: rest =>
      if scan_fields lower_query m search_in
      then m :: collect_matches lower_query search_in rest
      else collect_matches lower_query search_in rest
  end.

(** [MarketList.match(self, query, search_in=None)] *)
Definition match_ (self : list UnifiedMarket) (query : str)
    (search_in : option (list SearchField)) : result UnifiedMarket :=
  let search_in :=
    match search_in with None => [title_field] | Some l => l end in
  let lower_query := lower query in
  let matches := collect_matches lower_query search_in self in
  if (length matches =? 0)%nat then
    Raise (Exn ValueError (no_match_msg query))
  else if (1 <? length matches)%nat then
    Raise (Exn ValueError (multiple_match_msg query matches))
  else
    match matches with
    | m :: _ => Ok m
    | [] => Raise (Exn Exception (lit "list index out of range"))
    end.

End Lower.

End Models.
Export Models.

(** ** client.py: [Exchange.filter_markets] *)

Module Client.

(** [criteria]: a string, a criteria dictionary or a predicate. *)
Inductive Criteria : Type :=
| CriteriaStr (s : str)
| CriteriaDict (params : MarketFilterCriteria)
| CriteriaFn (f : UnifiedMarket -> bool).

(** ["title" in search_in] *)
Definition in_search (field : SearchField) (search_in : list SearchField) : bool :=
  existsb (SearchField_eqb field) search_in.

(** [a > b] on numbers. *)
Definition num_gt (a b : Q) : bool := negb (Qle_bool a b).

(** [x or 0] for an optional number. *)
Definition or_zero (x : option Q) : Q :=
  match x with
  | Some q => if num_truthy q then q else 0%Q
  | None => 0%Q
  end.

Definition opt_string_eqb (a : option str) (b : str) : bool :=
  match a with
  | Some s => str_eqb s b
  | None => false
  end.

(** Each [*_ok] below is the negation of the condition under which the loop
    body reaches [continue] in the block of that key. *)

Definition category_ok (params : MarketFilterCriteria) (market : UnifiedMarket) : bool :=
  match c_category params with
  | Some cat => opt_string_eqb (category market) cat
  | None => true
  end.

(** [("min" in f and val < f["min"]) or ("max" in f and val > f["max"])] *)
Definition range_rejects (f : MinMax) (val : Q) : bool :=
  match mm_min f with Some lo => num_lt val lo | None => false end ||
  match mm_max f with Some hi => num_gt val hi | None => false end.

Definition range_ok (f : option MinMax) (val : Q) : bool :=
  match f with
  | Some f => negb (range_rejects f val)
  | None => true
  end.

(** The block of [resolution_date]; the two comparisons may raise. *)
Definition date_ok (params : MarketFilterCriteria) (market : UnifiedMarket)
    : result bool :=
  match c_resolution_date params with
  | Some f =>
      match resolution_date market with
      | None => Ok false
      | Some val =>
          too_late ← match dr_before f with
                     | Some b => dt_ge val b
                     | None => Ok false
                     end;
          if too_late : bool then Ok false
          else
            too_early ← match dr_after f with
                        | Some a => dt_le val a
                        | None => Ok false
                        end;
            Ok (negb too_early)
      end
  | None => Ok true
  end.

(** [getattr(market, outcome_key, None)] *)
Definition getattr_outcome (market : UnifiedMarket) (key : OutcomeType)
    : option MarketOutcome :=
  match key with
  | yes_key => yes market
  | no_key => no market
  | up_key => up market
  | down_key => down market
  end.

Definition price_ok (params : MarketFilterCriteria) (market : UnifiedMarket) : bool :=
  match c_price params with
  | Some f =>
      match pf_outcome f with
      | Some outcome_key =>
          match getattr_outcome market outcome_key with
          | None => false
          | Some outcome =>
              negb (range_rejects {| mm_min := pf_min f; mm_max := pf_max f |}
                      (price outcome))
          end
      | None => true
      end
  | None => true
  end.

Definition price_change_24h_ok (params : MarketFilterCriteria)
    (market : UnifiedMarket) : bool :=
  match c_price_change_24h params with
  | Some f =>
      match pf_outcome f with
      | Some outcome_key =>
          match getattr_outcome market outcome_key with
          | None => false
          | Some outcome =>
              match price_change_24h outcome with
              | None => false
              | Some change =>
                  negb (range_rejects
                          {| mm_min := pf_min f; mm_max := pf_max f |} change)
              end
          end
      | None => true
      end
  | None => true
  end.

Section Lower.

(** [str.lower] *)
Variable lower : str -> str.

(** The [if]/[elif] chain of the text search: the value of [match]. *)
Definition text_match (lower_query : str) (search_in : list SearchField)
    (market : UnifiedMarket) : bool :=
  if in_search title_field search_in && str_truthy (title market)
     && str_in lower_query (lower (title market)) then true
  else if in_search description_field search_in
     && opt_str_hit lower lower_query (description market) then true
  else if in_search category_field search_in
     && opt_str_hit lower lower_query (category market) then true
  else if in_search tags_field search_in
     && tags_hit lower lower_query (tags market) then true
  else if in_search outcomes_field search_in
     && outcomes_hit lower lower_query (outcomes market) then true
  else false.

Definition text_ok (params : MarketFilterCriteria) (market : UnifiedMarket) : bool :=
  match c_text params with
  | Some text =>
      let lower_query := lower text in
      let search_in :=
        match c_search_in params with Some l => l | None => [title_field] end in
      text_match lower_query search_in market
  | None => true
  end.

Definition tags_ok (params : MarketFilterCriteria) (market : UnifiedMarket) : bool :=
  match c_tags params with
  | Some (q :: qs) =>
      match tags market with
      | Some (t :: ts) =>
          let query_tags := map lower (q :: qs) in
          let market_tags := map lower (t :: ts) in
          existsb (fun x => existsb (str_eqb x) market_tags) query_tags
      | _ => false
      end
  | _ => true
  end.

(** The body of [for market in markets]: [Ok true] when the market is
    appended to [results], [Ok false] when a [continue] is reached. *)
Definition market_passes (params : MarketFilterCriteria)
    (market : UnifiedMarket) : result bool :=
  if negb (text_ok params market) then Ok false
  else if negb (category_ok params market) then Ok false
  else if negb (tags_ok params market) then Ok false
  else if negb (range_ok (c_volume_24h params) (volume_24h market)) then Ok false
  else if negb (range_ok (c_volume params) (or_zero (volume market))) then Ok false
  else if negb (range_ok (c_liquidity params) (liquidity market)) then Ok false
  else if negb (range_ok (c_open_interest params) (or_zero (open_interest market)))
  then Ok false
  else
    in_dates ← date_ok params market;
    if negb in_dates then Ok false
    else if negb (price_ok params market) then Ok false
    else if negb (price_change_24h_ok params market) then Ok false
    else Ok true.

(** The loop over [markets], building [results]. *)
Fixpoint filter_loop (params : MarketFilterCriteria)
    (markets : list UnifiedMarket) : result (list UnifiedMarket) :=
  match markets with
  | [] => Ok []
  | market :: rest =>
      keep ← market_passes params market;
      results ← filter_loop params rest;
      Ok (if keep : bool then market :: results else results)
  end.

(** [Exchange.filter_markets(self, markets, criteria)] *)
Definition filter_markets (markets : list UnifiedMarket) (criteria : Criteria)
    : result (list UnifiedMarket) :=
  match criteria with
  | CriteriaFn f => Ok (List.filter f markets)
  | CriteriaStr s =>
      let lower_query := lower s in
      Ok (List.filter
            (fun m => str_truthy (title m) && str_in lower_query (lower (title m)))
            markets)
  | CriteriaDict params => filter_loop params markets
  end.

End Lower.

End Client.
Export Client.

(** ** server_manager.py *)

Module ServerManager.

(** The state of the lock path, by what the code can observe of it:
    [self.lock_path.exists()] itself fails (the directory [~/.pmxt] cannot
    be searched: [Path.exists] re-raises the [PermissionError] up to Python
    3.12); or the path exists and [json.loads(self.lock_path.read_text())]
    finds that the file cannot be read ([OSError]), that its bytes are not
    text in the locale's encoding ([UnicodeDecodeError]), that its text is
    not JSON ([JSONDecodeError]), or that its text is the JSON document of
    a value.  The exceptions carry the text the interpreter gives them. *)
Inductive lock_content : Type :=
| Unreachable (reason : str)
| Unreadable (reason : str)
| Undecodable (reason : str)
| NotJson (reason : str)
| Json (v : pyval).

(** The lock file; [lf_removable] tells whether [unlink] is permitted. *)
Record lock_file : Type := {
  lf_content : lock_content;
  lf_removable : bool
}.

(** How [subprocess.run] ends. *)
Inductive run_outcome : Type :=
| Completed (returncode : Z) (stdout stderr : str)
| TimedOut
| RunError (e : exn).

(** One run of the launcher: its outcome, the time it took, and the lock
    file and process table it leaves behind. *)
Record run_result : Type := {
  rr_outcome : run_outcome;
  rr_millis : nat;
  rr_lock : option lock_file;
  rr_procs : gmap Z Z
}.

(** The environment of the supervisor.  Time is in milliseconds.
      - [w_procs] is the process table: the processes the caller may send a
        signal to, each with its process group; [w_pid] is the caller.
      - [w_health t port timeout] tells whether a request to
        [http://localhost:{port}/health] that starts at [t] is answered with
        status 200 and a body whose [status] is ["ok"], and
        [w_latency t port timeout] is the time the call takes.  The timeout
        of [urlopen] bounds each socket operation, not the exchange, so the
        time of a call is not bounded by it.
      - [w_clock] is what [time.time()] reads; it is taken not to be set
        back while the supervisor runs.
      - [w_oversleep t] is the time by which a [time.sleep] that starts at
        [t] exceeds the time asked for.
      - [w_launches] and [w_polls] count the calls of [subprocess.run] and
        the iterations of the polling loop. *)
Record world : Type := {
  w_lock : option lock_file;
  w_procs : gmap Z Z;
  w_pid : Z;
  w_clock : nat;
  w_health : nat -> pyval -> nat -> bool;
  w_latency : nat -> pyval -> nat -> nat;
  w_oversleep : nat -> nat;
  w_local_launcher : option str;
  w_which : option str;
  w_executable : str -> bool;
  w_run : list str -> run_result;
  w_launches : nat;
  w_polls : nat
}.

Definition set_lock (l : option lock_file) (w : world) : world :=
  {| w_lock := l; w_procs := w_procs w; w_pid := w_pid w;
     w_clock := w_clock w;
     w_health := w_health w; w_latency := w_latency w;
     w_oversleep := w_oversleep w;
     w_local_launcher := w_local_launcher w; w_which := w_which w;
     w_executable := w_executable w; w_run := w_run w;
     w_launches := w_launches w; w_polls := w_polls w |}.

Definition advance (ms : nat) (w : world) : world :=
  {| w_lock := w_lock w; w_procs := w_procs w; w_pid := w_pid w;
     w_clock := w_clock w + ms;
     w_health := w_health w; w_latency := w_latency w;
     w_oversleep := w_oversleep w;
     w_local_launcher := w_local_launcher w; w_which := w_which w;
     w_executable := w_executable w; w_run := w_run w;
     w_launches := w_launches w; w_polls := w_polls w |}.

Definition count_poll (w : world) : world :=
  {| w_lock := w_lock w; w_procs := w_procs w; w_pid := w_pid w;
     w_clock := w_clock w;
     w_health := w_health w; w_latency := w_latency w;
     w_oversleep := w_oversleep w;
     w_local_launcher := w_local_launcher w; w_which := w_which w;
     w_executable := w_executable w; w_run := w_run w;
     w_launches := w_launches w; w_polls := S (w_polls w) |}.

Definition after_run (r : run_result) (w : world) : world :=
  {| w_lock := rr_lock r; w_procs := rr_procs r; w_pid := w_pid w;
     w_clock := w_clock w + rr_millis r;
     w_health := w_health w; w_latency := w_latency w;
     w_oversleep := w_oversleep w;
     w_local_launcher := w_local_launcher w; w_which := w_which w;
     w_executable := w_executable w; w_run := w_run w;
     w_launches := S (w_launches w); w_polls := w_polls w |}.

(** State and error monad: an exception keeps the effects made before it. *)
Definition M (A : Type) : Type := world -> result A * world.

#[global] Instance M_ret : MRet M := fun A a w => (Ok a, w).
#[global] Instance M_bind : MBind M := fun A B f m w =>
  match m w with
  | (Ok a, w') => f a w'
  | (Raise e, w') => (Raise e, w')
  end.

Definition raise {A : Type} (cls : exn_class) (msg : str) : M A :=
  fun w => (Raise (Exn cls msg), w).

Definition lift {A : Type} (r : result A) : M A := fun w => (r, w).

(** [try: body / except <classes>: handler]; [catches] is the test the
    except clauses make on the exception. *)
Definition try_except {A : Type} (body : M A) (catches : exn -> bool)
    (handler : exn -> M A) : M A :=
  fun w =>
    match body w with
    | (Ok a, w') => (Ok a, w')
    | (Raise e, w') => if catches e then handler e w' else (Raise e, w')
    end.

(** A bare [except:]. *)
Definition any_exn (e : exn) : bool := true.

Definition DEFAULT_PORT : Z := 3847.
Definition HEALTH_CHECK_TIMEOUT : nat := 10.
(** [HEALTH_CHECK_INTERVAL = 0.1] seconds, in milliseconds. *)
Definition HEALTH_CHECK_INTERVAL_MS : nat := 100.

(** The instance: [self.base_url] and [self._port]; [self.lock_path] is the
    lock file of the [world]. *)
Record t : Type := { base_url : str; _port : Z }.

(** [_extract_port_from_url]; the argument is what [urlparse(url).port]
    yields (it raises [ValueError] on a port that is not a number). *)
Definition _extract_port_from_url (parsed_port : result (option Z)) : Z :=
  match parsed_port with
  | Ok (Some p) => if (p =? 0)%Z then DEFAULT_PORT else p
  | Ok None => DEFAULT_PORT
  | Raise _ => DEFAULT_PORT
  end.

(** [self.lock_path.exists()] *)
Definition lock_exists : M bool := fun w =>
  match w_lock w with
  | None => (Ok false, w)
  | Some f =>
      match lf_content f with
      | Unreachable reason => (Raise (Exn OSError reason), w)
      | _ => (Ok true, w)
      end
  end.

(** [json.loads(self.lock_path.read_text())] *)
Definition read_lock_json : M pyval := fun w =>
  match w_lock w with
  | None => (Raise (Exn OSError (lit "[Errno 2] No such file or directory")), w)
  | Some f =>
      match lf_content f with
      | Unreachable reason => (Raise (Exn OSError reason), w)
      | Unreadable reason => (Raise (Exn OSError reason), w)
      | Undecodable reason => (Raise (Exn UnicodeDecodeError reason), w)
      | NotJson reason => (Raise (Exn JSONDecodeError reason), w)
      | Json v => (Ok v, w)
      end
  end.

(** [self.lock_path.unlink()] *)
Definition unlink : M unit := fun w =>
  match w_lock w with
  | None => (Raise (Exn OSError (lit "[Errno 2] No such file or directory")), w)
  | Some f =>
      match lf_content f with
      | Unreachable reason => (Raise (Exn OSError reason), w)
      | _ =>
          if lf_removable f then (Ok tt, set_lock None w)
          else (Raise (Exn OSError (lit "[Errno 13] Permission denied")), w)
      end
  end.

(** The range of [pid_t]. *)
Definition pid_in_range (p : Z) : bool :=
  ((- 2 ^ 31 <=? p) && (p <? 2 ^ 31))%Z.

(** Whether [kill(p, 0)] finds a target: a positive [p] names one process;
    [0] names the process group of the caller, which holds the caller;
    [-1] names every process the caller may signal, the caller excepted; a
    [p] below [-1] names the process group [-p]. *)
Definition kill_target (w : world) (p : Z) : bool :=
  if (0 <? p)%Z then
    match w_procs w !! p with Some _ => true | None => false end
  else if (p =? 0)%Z then true
  else if (p =? -1)%Z then
    existsb (fun '(pid, _) => negb (pid =? w_pid w)%Z) (map_to_list (w_procs w))
  else
    existsb (fun '(_, pgid) => (pgid =? - p)%Z) (map_to_list (w_procs w)).

(** [os.kill(pid, 0)] *)
Definition os_kill_0 (pid : pyval) : M unit := fun w =>
  let kill (p : Z) : result unit * world :=
    if pid_in_range p then
      if kill_target w p then (Ok tt, w)
      else (Raise (Exn OSError (lit "[Errno 3] No such process")), w)
    else if (p <? 0)%Z then
      (Raise (Exn OverflowError (lit "signed integer is less than minimum")), w)
    else
      (Raise (Exn OverflowError (lit "signed integer is greater than maximum")),
       w) in
  match pid with
  | PInt p => kill p
  | PBool b => kill (if b then 1%Z else 0%Z)
  | _ => (Raise (Exn TypeError
                   (lit "'" ++ type_name pid ++
                    lit "' object cannot be interpreted as an integer")), w)
  end.

(** [_is_process_running(self, pid)] *)
Definition _is_process_running (self : t) (pid : pyval) : M bool :=
  try_except (os_kill_0 pid ;; mret true)
    (fun e => isinstance e OSError)
    (fun _ => mret false).

(** [_remove_stale_lock(self)] *)
Definition _remove_stale_lock (self : t) : M unit :=
  try_except unlink any_exn (fun _ => mret tt).

(** [_check_health(self, port, timeout)]: every failure of the request is
    turned into [False] inside the method, so the call returns what
    [w_health] tells, after the time [w_latency] tells. *)
Definition _check_health (self : t) (port : pyval) (timeout : nat) : M bool :=
  fun w =>
    (Ok (w_health w (w_clock w) port timeout),
     advance (w_latency w (w_clock w) port timeout) w).

(** [is_server_alive(self)] *)
Definition is_server_alive (self : t) : M bool :=
  present ← lock_exists;
  if negb present then mret false
  else
    try_except
      (lock_data ← read_lock_json;
       pid ← lift (py_get lock_data (lit "pid") PNone);
       port ← lift (py_get lock_data (lit "port") (PInt DEFAULT_PORT));
       if negb (truthy pid) then mret false
       else
         running ← _is_process_running self pid;
         if negb running then _remove_stale_lock self ;; mret false
         else
           try_except (_check_health self port 1) any_exn
             (fun _ => mret false))
      (fun e => isinstance e JSONDecodeError || isinstance e OSError)
      (fun _ => mret false).

Definition launcher_not_found_msg : str :=
  lit "pmxt-ensure-server not found." ++ nl ++
  lit "Local search failed and not in PATH." ++ nl ++
  lit "Please install the server: npm install -g pmxtjs".

(** [subprocess.run(cmd, capture_output=True, text=True, timeout=...)]:
    a completed run gives its return code and its two streams. *)
Definition subprocess_run (cmd : list str) : M (Z * str * str) :=
  fun w =>
    let r := w_run w cmd in
    let w' := after_run r w in
    match rr_outcome r with
    | Completed returncode stdout stderr => (Ok (returncode, stdout, stderr), w')
    | TimedOut => (Raise (Exn TimeoutExpired (lit "Command timed out")), w')
    | RunError e => (Raise e, w')
    end.

(** [x or y] on strings. *)
Definition str_or (x y : str) : str :=
  if str_truthy x then x else y.

(** The launcher: the file [bin/pmxt-ensure-server] next to the package when
    it exists, else what [shutil.which] finds. *)
Definition find_launcher (w : world) : option str :=
  match w_local_launcher w with
  | Some local_launcher => Some local_launcher
  | None => w_which w
  end.

(** The command line [cmd]. *)
Definition launcher_cmd (w : world) (launcher : str) : list str :=
  if endswith launcher (lit ".js") || negb (w_executable w launcher)
  then [lit "node"; launcher] else [launcher].

(** [_start_server_via_launcher(self)] *)
Definition _start_server_via_launcher (self : t) : M unit := fun w =>
  match find_launcher w with
  | None => raise Exception launcher_not_found_msg w
  | Some [] => raise Exception launcher_not_found_msg w
  | Some launcher =>
      try_except
        (let cmd := launcher_cmd w launcher in
         '(returncode, stdout, stderr) ← subprocess_run cmd;
         if negb (returncode =? 0)%Z then
           raise Exception
             (lit "Failed to start server: " ++ str_or stderr stdout)
         else mret tt)
        (fun e => isinstance e TimeoutExpired || isinstance e Exception)
        (fun e =>
           if isinstance e TimeoutExpired
           then raise Exception (lit "Server startup timeout")
           else raise Exception (lit "Failed to start server: " ++ exn_msg e))
        w
  end.

Definition health_timeout_msg : str :=
  lit "Server failed to become healthy within " ++
  str_of_nat HEALTH_CHECK_TIMEOUT ++ lit "s".

(** [time.sleep(HEALTH_CHECK_INTERVAL)]: the call suspends for at least the
    interval. *)
Definition sleep_interval : M unit := fun w =>
  (Ok tt, advance (HEALTH_CHECK_INTERVAL_MS + w_oversleep w (w_clock w)) w).

(** The [while] loop of [_wait_for_health], at most [fuel] iterations. *)
Fixpoint wait_loop (fuel : nat) (self : t) (start_time : nat) : M unit :=
  fun w =>
    match fuel with
    | O => raise Exception health_timeout_msg w
    | S fuel' =>
        if (w_clock w - start_time <? HEALTH_CHECK_TIMEOUT * 1000)%nat then
          (healthy ← try_except (_check_health self (PInt (_port self)) 2)
                       any_exn (fun _ => mret false);
           if healthy : bool then mret tt
           else
             sleep_interval ;;
             wait_loop fuel' self start_time)
            (count_poll w)
        else raise Exception health_timeout_msg w
    end.

(** Every iteration that does not return sleeps for the polling interval at
    least, so the loop ends within this many iterations. *)
Definition wait_fuel : nat :=
  S (HEALTH_CHECK_TIMEOUT * 1000 / HEALTH_CHECK_INTERVAL_MS).

(** [_wait_for_health(self)] *)
Definition _wait_for_health (self : t) : M unit := fun w =>
  let start_time := w_clock w in
  wait_loop wait_fuel self start_time w.

(** [ensure_server_running(self)] *)
Definition ensure_server_running (self : t) : M unit :=
  alive ← is_server_alive self;
  if alive : bool then mret tt
  else
    _start_server_via_launcher self ;;
    _wait_for_health self.

(** [get_server_info(self)]; [PNone] is the [None] it returns. *)
Definition get_server_info (self : t) : M pyval :=
  present ← lock_exists;
  if negb present then mret PNone
  else try_except read_lock_json any_exn (fun _ => mret PNone).

(** The methods of the class that take no argument besides [self], under
    the names the class body binds them to. *)
Definition methods : list (str * (t -> M pyval)) :=
  [ (lit "ensure_server_running",
       fun self => ensure_server_running self ;; mret PNone);
    (lit "is_server_alive", fun self => b ← is_server_alive self; mret (PBool b));
    (lit "_remove_stale_lock", fun self => _remove_stale_lock self ;; mret PNone);
    (lit "_start_server_via_launcher",
       fun self => _start_server_via_launcher self ;; mret PNone);
    (lit "_wait_for_health", fun self => _wait_for_health self ;; mret PNone);
    (lit "get_server_info", get_server_info) ].

(** The other attributes of an instance: methods with parameters, class
    constants and the fields [__init__] sets. *)
Definition other_attributes : list str :=
  [ lit "__init__"; lit "_extract_port_from_url"; lit "_is_process_running";
    lit "_check_health"; lit "DEFAULT_PORT"; lit "HEALTH_CHECK_TIMEOUT";
    lit "HEALTH_CHECK_INTERVAL"; lit "base_url"; lit "lock_path"; lit "_port" ].

Fixpoint lookup_method (name : str) (table : list (str * (t -> M pyval)))
    : option (t -> M pyval) :=
  match table with
  | [] => None
  | (n, f) :: rest => if str_eqb n name then Some f else lookup_method name rest
  end.

(** [self.<name>()]: attribute lookup on the instance, then the call with no
    argument. *)
Definition call_method (self : t) (name : str) : M pyval :=
  match lookup_method name methods with
  | Some f => f self
  | None =>
      if existsb (str_eqb name) other_attributes then
        raise TypeError
          (lit "'" ++ name ++ lit "' cannot be called without arguments")
      else
        raise AttributeError
          (lit "'ServerManager' object has no attribute '" ++ name ++ lit "'")
  end.

End ServerManager.

(** ** client.py: the port discovery of [Exchange.__init__] *)

Module Exchange.
Import ServerManager.

Definition start_failure_msg (e : exn) : str :=
  lit "Failed to start PMXT server: " ++ exn_msg e ++ nl ++ nl ++
  lit "Please ensure 'pmxtjs' is installed: npm install -g pmxtjs" ++ nl ++
  lit "Or start the server manually: pmxt-server".

(** The block [if auto_start_server: try: ... except Exception as e: ...] of
    [__init__].  The result is the value of [actual_port] from which the new
    [base_url] is formatted, or [None] when the block is skipped and
    [base_url] is kept. *)
Definition discover_port (server_manager : ServerManager.t)
    (auto_start_server : bool) : M (option pyval) :=
  if auto_start_server then
    try_except
      (ensure_server_running server_manager ;;
       actual_port ← call_method server_manager (lit "get_running_port");
       mret (Some actual_port))
      (fun e => isinstance e Exception)
      (fun e => raise Exception (start_failure_msg e))
  else mret None.

End Exchange.


(** * Vocabulary of the statements *)

Module Spec.

(** [a] occurs in [b]: [b] is [a] with something before and after it. *)
Definition occurs_in (a b : str) : Prop :=
  exists pre post, b = pre ++ a ++ post.

(** [t] contains [q] up to the case of letters: the lowercase form of [q]
    occurs in the lowercase form of [t]. *)
Definition contains_ci (lower : str -> str) (q t : str) : Prop :=
  occurs_in (lower q) (lower t).

(** A market matches [q] on its title: the title is not empty and contains
    [q] up to case. *)
Definition title_matches (lower : str -> str) (q : str) (m : UnifiedMarket)
    : Prop :=
  title m <> [] /\ contains_ci lower q (title m).

(** A title as a message shows it: whole when it has at most 70 characters,
    else its first 70 characters followed by three dots. *)
Definition shown_title (t : str) : str :=
  if decide (length t <= 70)%nat then t else take 70 t ++ (lit "...").

(** The numbered lines of a list of markets: [1. <title>], [2. <title>],
    and so on, each title as [shown_title] gives it. *)
Definition numbered_titles (ms : list UnifiedMarket) : list str :=
  imap (fun i m => str_of_nat (S i) ++ (lit ". ") ++ shown_title (title m)) ms.

(** No element of [l] satisfies [P]. *)
Definition none_of {A : Type} (P : A -> Prop) (l : list A) : Prop :=
  Forall (fun x => ~ P x) l.

(** [m], at one position of [l], is the only element that satisfies [P]. *)
Definition exactly_one {A : Type} (P : A -> Prop) (l : list A) (m : A) : Prop :=
  exists l1 l2, l = (l1 ++ m :: l2) /\ P m /\ none_of P l1 /\ none_of P l2.

(** Two positions of [l] hold elements that satisfy [P]. *)
Definition at_least_two {A : Type} (P : A -> Prop) (l : list A) : Prop :=
  exists l1 a l2 b l3, l = (l1 ++ a :: l2 ++ b :: l3) /\ P a /\ P b.

(** The criteria dictionary without any key. *)
Definition no_criteria : MarketFilterCriteria :=
  {| c_text := None; c_search_in := None; c_volume_24h := None;
     c_volume := None; c_liquidity := None; c_open_interest := None;
     c_resolution_date := None; c_category := None; c_tags := None;
     c_price := None; c_price_change_24h := None |}.

(** [{"text": s, "search_in": ["title"]}] *)
Definition title_text_criteria (s : str) : MarketFilterCriteria :=
  {| c_text := Some s; c_search_in := Some [title_field]; c_volume_24h := None;
     c_volume := None; c_liquidity := None; c_open_interest := None;
     c_resolution_date := None; c_category := None; c_tags := None;
     c_price := None; c_price_change_24h := None |}.

(** The four keys that hold a numeric range. *)
Inductive RangeKey : Type :=
| key_volume_24h
| key_volume
| key_liquidity
| key_open_interest.

(** [{key: f}] *)
Definition range_criteria (key : RangeKey) (f : MinMax) : MarketFilterCriteria :=
  {| c_text := None; c_search_in := None;
     c_volume_24h := match key with key_volume_24h => Some f | _ => None end;
     c_volume := match key with key_volume => Some f | _ => None end;
     c_liquidity := match key with key_liquidity => Some f | _ => None end;
     c_open_interest := match key with key_open_interest => Some f | _ => None end;
     c_resolution_date := None; c_category := None; c_tags := None;
     c_price := None; c_price_change_24h := None |}.

(** The value the range of [key] is compared with: the field of the market,
    and [0] for an optional field that is absent. *)
Definition range_value (key : RangeKey) (m : UnifiedMarket) : Q :=
  match key with
  | key_volume_24h => volume_24h m
  | key_volume => match volume m with Some q => q | None => 0%Q end
  | key_liquidity => liquidity m
  | key_open_interest => match open_interest m with Some q => q | None => 0%Q end
  end.

(** [val] lies strictly below the [min] or strictly above the [max] of [f]. *)
Definition outside (f : MinMax) (val : Q) : Prop :=
  (exists lo, mm_min f = Some lo /\ (val < lo)%Q) \/
  (exists hi, mm_max f = Some hi /\ (hi < val)%Q).

(** Union of two dictionaries, key by key. *)
Definition key_union {A : Type} (a b : option A) : option A :=
  match a with
  | Some x => Some x
  | None => b
  end.

(** [{**c1, **c2}] for dictionaries without a common key. *)
Definition criteria_union (c1 c2 : MarketFilterCriteria) : MarketFilterCriteria :=
  {| c_text := key_union (c_text c1) (c_text c2);
     c_search_in := key_union (c_search_in c1) (c_search_in c2);
     c_volume_24h := key_union (c_volume_24h c1) (c_volume_24h c2);
     c_volume := key_union (c_volume c1) (c_volume c2);
     c_liquidity := key_union (c_liquidity c1) (c_liquidity c2);
     c_open_interest := key_union (c_open_interest c1) (c_open_interest c2);
     c_resolution_date := key_union (c_resolution_date c1) (c_resolution_date c2);
     c_category := key_union (c_category c1) (c_category c2);
     c_tags := key_union (c_tags c1) (c_tags c2);
     c_price := key_union (c_price c1) (c_price c2);
     c_price_change_24h :=
       key_union (c_price_change_24h c1) (c_price_change_24h c2) |}.

(** A key is not in both dictionaries. *)
Definition key_disjoint {A : Type} (a b : option A) : Prop :=
  a = None \/ b = None.

Definition keys_disjoint (c1 c2 : MarketFilterCriteria) : Prop :=
  key_disjoint (c_text c1) (c_text c2) /\
  key_disjoint (c_search_in c1) (c_search_in c2) /\
  key_disjoint (c_volume_24h c1) (c_volume_24h c2) /\
  key_disjoint (c_volume c1) (c_volume c2) /\
  key_disjoint (c_liquidity c1) (c_liquidity c2) /\
  key_disjoint (c_open_interest c1) (c_open_interest c2) /\
  key_disjoint (c_resolution_date c1) (c_resolution_date c2) /\
  key_disjoint (c_category c1) (c_category c2) /\
  key_disjoint (c_tags c1) (c_tags c2) /\
  key_disjoint (c_price c1) (c_price c2) /\
  key_disjoint (c_price_change_24h c1) (c_price_change_24h c2).

(** The [search_in] key of one dictionary does not meet the [text] key of
    the other. *)
Definition scope_with_text (c1 c2 : MarketFilterCriteria) : Prop :=
  (c_search_in c1 = None \/ c_text c2 = None) /\
  (c_search_in c2 = None \/ c_text c1 = None).

(** The bound of a date range and a date can be ordered. *)
Definition bound_comparable (bound : option datetime) (val : datetime) : Prop :=
  match bound with
  | Some b => dt_aware val = dt_aware b
  | None => True
  end.

(** The date of [m], if it has one, can be ordered with the bounds of the
    date range of [c], if it has one. *)
Definition date_comparable (c : MarketFilterCriteria) (m : UnifiedMarket) : Prop :=
  match c_resolution_date c, resolution_date m with
  | Some f, Some val =>
      bound_comparable (dr_before f) val /\ bound_comparable (dr_after f) val
  | _, _ => True
  end.

Definition dates_comparable (c : MarketFilterCriteria)
    (markets : list UnifiedMarket) : Prop :=
  Forall (date_comparable c) markets.

(** The verdict of the date range on a market whose date can be ordered
    with the bounds. *)
Definition date_within (c : MarketFilterCriteria) (m : UnifiedMarket) : bool :=
  match c_resolution_date c with
  | Some f =>
      match resolution_date m with
      | None => false
      | Some val =>
          match dr_before f with
          | Some b => negb (dt_micros b <=? dt_micros val)%Z
          | None => true
          end &&
          match dr_after f with
          | Some a => negb (dt_micros val <=? dt_micros a)%Z
          | None => true
          end
      end
  | None => true
  end.

(** The constraints evaluated before and after the date range. *)
Definition before_date_ok (lower : str -> str) (c : MarketFilterCriteria)
    (m : UnifiedMarket) : bool :=
  text_ok lower c m && category_ok c m && tags_ok lower c m &&
  range_ok (c_volume_24h c) (volume_24h m) &&
  range_ok (c_volume c) (or_zero (volume m)) &&
  range_ok (c_liquidity c) (liquidity m) &&
  range_ok (c_open_interest c) (or_zero (open_interest m)).

Definition after_date_ok (c : MarketFilterCriteria) (m : UnifiedMarket) : bool :=
  price_ok c m && price_change_24h_ok c m.

(** The conjunction of all the constraints of [c] on one market. *)
Definition verdict (lower : str -> str) (c : MarketFilterCriteria)
    (m : UnifiedMarket) : bool :=
  before_date_ok lower c m && date_within c m && after_date_ok c m.

(** [filter(filter(R, c1), c2)] *)
Definition filter_twice (lower : str -> str) (R : list UnifiedMarket)
    (c1 c2 : MarketFilterCriteria) : result (list UnifiedMarket) :=
  R1 ← filter_markets lower R (CriteriaDict c1);
  filter_markets lower R1 (CriteriaDict c2).

(** An action of the supervisor that neither runs the launcher nor polls
    for health, however it ends. *)
Definition quiet {A : Type} (m : ServerManager.M A) : Prop :=
  forall w r w', m w = (r, w') ->
    ServerManager.w_launches w' = ServerManager.w_launches w /\
    ServerManager.w_polls w' = ServerManager.w_polls w.

(** An action that leaves the lock file, the process table and the two
    counters as they are, however it ends. *)
Definition read_only {A : Type} (m : ServerManager.M A) : Prop :=
  forall w r w', m w = (r, w') ->
    ServerManager.w_lock w' = ServerManager.w_lock w /\
    ServerManager.w_procs w' = ServerManager.w_procs w /\
    ServerManager.w_launches w' = ServerManager.w_launches w /\
    ServerManager.w_polls w' = ServerManager.w_polls w.

(** The lock file cannot be read or does not hold a JSON document. *)
Definition malformed (f : ServerManager.lock_file) : Prop :=
  exists reason,
    ServerManager.lf_content f = ServerManager.Unreadable reason \/
    ServerManager.lf_content f = ServerManager.Undecodable reason \/
    ServerManager.lf_content f = ServerManager.NotJson reason.

End Spec.
Export Spec.

(** * Sample data *)

Module Sample.
Import ServerManager.

(** A market with a title and a 24-hour volume, the other fields empty. *)
Definition market (t : str) (v : Q) : UnifiedMarket :=
  {| market_id := (lit ""); title := t; outcomes := []; volume_24h := v;
     liquidity := 0%Q; url := (lit ""); description := None;
     resolution_date := None; volume := None; open_interest := None;
     image := None; category := None; tags := None;
     yes := None; no := None; up := None; down := None |}.

Definition trump : UnifiedMarket := market (lit "Will Trump win?") 50000%Q.
Definition bitcoin : UnifiedMarket := market (lit "Bitcoin $100k?") 75000%Q.
Definition biden : UnifiedMarket := market (lit "Biden reelect?") 30000%Q.

Definition records : list UnifiedMarket := [trump; bitcoin; biden].

(** A market whose title is the empty string. *)
Definition untitled : UnifiedMarket := market (lit "") 0%Q.

(** [{"volume_24h": {"min": 40000}}] *)
Definition volume_min_40000 : MarketFilterCriteria :=
  range_criteria key_volume_24h {| mm_min := Some 40000%Q; mm_max := None |}.

(** A market titled [abc] and described as [xyz]. *)
Definition abc : UnifiedMarket :=
  {| market_id := (lit "1"); title := (lit "abc"); outcomes := []; volume_24h := 0%Q;
     liquidity := 0%Q; url := (lit ""); description := Some (lit "xyz");
     resolution_date := None; volume := None; open_interest := None;
     image := None; category := None; tags := None;
     yes := None; no := None; up := None; down := None |}.

(** [{"text": "abc"}] and [{"search_in": ["description"]}] *)
Definition text_abc : MarketFilterCriteria :=
  {| c_text := Some (lit "abc"); c_search_in := None; c_volume_24h := None;
     c_volume := None; c_liquidity := None; c_open_interest := None;
     c_resolution_date := None; c_category := None; c_tags := None;
     c_price := None; c_price_change_24h := None |}.

Definition scope_description : MarketFilterCriteria :=
  {| c_text := None; c_search_in := Some [description_field];
     c_volume_24h := None;
     c_volume := None; c_liquidity := None; c_open_interest := None;
     c_resolution_date := None; c_category := None; c_tags := None;
     c_price := None; c_price_change_24h := None |}.

(** A market without a [yes] outcome that resolves at the naive date
    2024-11-05 00:00:00. *)
Definition naive_dated : UnifiedMarket :=
  {| market_id := (lit "2"); title := (lit "dated"); outcomes := []; volume_24h := 0%Q;
     liquidity := 0%Q; url := (lit ""); description := None;
     resolution_date := Some (Datetime 1730764800000000 false);
     volume := None; open_interest := None;
     image := None; category := None; tags := None;
     yes := None; no := None; up := None; down := None |}.

(** [{"price": {"outcome": "yes", "min": 0.5}}] *)
Definition price_yes_min : MarketFilterCriteria :=
  {| c_text := None; c_search_in := None; c_volume_24h := None;
     c_volume := None; c_liquidity := None; c_open_interest := None;
     c_resolution_date := None; c_category := None; c_tags := None;
     c_price := Some {| pf_outcome := Some yes_key; pf_min := Some (1 # 2)%Q;
                        pf_max := None |};
     c_price_change_24h := None |}.

(** [{"resolution_date": {"before": d}}] *)
Definition before (d : datetime) : MarketFilterCriteria :=
  {| c_text := None; c_search_in := None; c_volume_24h := None;
     c_volume := None; c_liquidity := None; c_open_interest := None;
     c_resolution_date := Some {| dr_before := Some d; dr_after := None |};
     c_category := None; c_tags := None;
     c_price := None; c_price_change_24h := None |}.

(** 2024-12-01 00:00:00, without and with the time zone UTC. *)
Definition dec_2024 : datetime := Datetime 1733011200000000 false.
Definition dec_2024_utc : datetime := Datetime 1733011200000000 true.

(** A market whose title has 71 characters, one more than a message
    shows. *)
Definition long_title : str :=
  lit "Will the candidate who leads the polls in March win the election in Nov".

Definition long_market : UnifiedMarket := market long_title 10%Q.

(** A market whose title has 70 characters, the twelfth being the letter
    e with an acute accent (code point 233, two bytes in UTF-8). *)
Definition accented_title : str :=
  lit "Will the pr" ++ [233%N] ++
  lit "sident of the republic be elected again in the next spring".

Definition accented_market : UnifiedMarket := market accented_title 20%Q.

(** [str.lower] on the strings of ASCII characters: the letters [A] to [Z]
    become [a] to [z]. *)
Definition ascii_lower (s : str) : str :=
  map (fun c => if (65 <=? c)%N && (c <=? 90)%N then (c + 32)%N else c) s.

(** A supervisor for the default URL. *)
Definition manager : ServerManager.t :=
  {| base_url := lit "http://localhost:3847"; _port := 3847 |}.

(** A launcher on the search path that prints to both streams and exits
    with status 1. *)
Definition failing_run (cmd : list str) : run_result :=
  {| rr_outcome := Completed 1 (lit "listening failed") (lit "EADDRINUSE");
     rr_millis := 20; rr_lock := None; rr_procs := ∅ |}.

(** The process table with the process [p], in a process group of its
    own. *)
Definition process (p : Z) : gmap Z Z := {[ p := p ]}.

(** A machine with the given lock file and process table, where nothing
    answers on the health endpoint. *)
Definition machine (lock : option lock_file) (procs : gmap Z Z) : world :=
  {| w_lock := lock; w_procs := procs; w_pid := 100; w_clock := 0;
     w_health := fun _ _ _ => false; w_latency := fun _ _ _ => 5;
     w_oversleep := fun _ => 0;
     w_local_launcher := None;
     w_which := Some (lit "/usr/local/bin/pmxt-ensure-server");
     w_executable := fun _ => true; w_run := failing_run;
     w_launches := 0; w_polls := 0 |}.

(** The same machine with a server that answers on every port. *)
Definition healthy_machine (lock : option lock_file) (procs : gmap Z Z)
    : world :=
  {| w_lock := lock; w_procs := procs; w_pid := 100; w_clock := 0;
     w_health := fun _ _ _ => true; w_latency := fun _ _ _ => 5;
     w_oversleep := fun _ => 0;
     w_local_launcher := None;
     w_which := Some (lit "/usr/local/bin/pmxt-ensure-server");
     w_executable := fun _ => true; w_run := failing_run;
     w_launches := 0; w_polls := 0 |}.

(** A removable lock file with the JSON document of [v]. *)
Definition lock_of (v : pyval) : lock_file :=
  {| lf_content := Json v; lf_removable := true |}.

(** [{"pid": p, "port": 3847}] *)
Definition lock_data (p : Z) : pyval :=
  PDict (<[lit "pid" := PInt p]> (<[lit "port" := PInt 3847]> ∅)).

(** A machine where process 4242 runs the server and answers. *)
Definition alive_world : world :=
  healthy_machine (Some (lock_of (lock_data 4242))) (process 4242).

(** The lock file [{"pid": 999999999, "port": 3847}] of a process that is
    gone. *)
Definition stale_world : world :=
  machine (Some (lock_of (lock_data 999999999))) ∅.

(** The lock file [{"pid": 0, "port": 3847}]. *)
Definition pid_zero_world : world :=
  machine (Some (lock_of (lock_data 0))) ∅.

(** The stale lock file in a directory that does not permit its removal. *)
Definition protected_stale_world : world :=
  machine (Some {| lf_content := Json (lock_data 999999999);
                   lf_removable := false |}) ∅.

(** The lock file [[]]: a JSON document that is not an object. *)
Definition list_lock_world : world := machine (Some (lock_of (PList []))) ∅.

(** A lock file whose first byte, [0xff], is not text. *)
Definition binary_lock_world : world :=
  machine
    (Some {| lf_content :=
               Undecodable
                 (lit "'utf-8' codec can't decode byte 0xff in position 0: invalid start byte");
             lf_removable := true |}) ∅.

(** A lock path in a directory that cannot be searched. *)
Definition hidden_lock_world : world :=
  machine
    (Some {| lf_content :=
               Unreachable
                 (lit "[Errno 13] Permission denied: '/home/user/.pmxt/server.lock'");
             lf_removable := false |}) ∅.

(** No lock file. *)
Definition no_lock_world : world := machine None ∅.

End Sample.

(** ** client.py: response envelopes, credentials, the market cache *)

Module ClientHelpers.

(** How [_handle_response] ends: it returns the data, it raises
    [Exception(arg)], or the lookup [error.get] fails on a value that is
    neither a string nor a dictionary. *)
Inductive response_outcome : Type :=
| Returned (data : pyval)
| RaisedException (arg : pyval)
| RaisedAttributeError (error : pyval).

(** [d.get(key)] and [d.get(key, default)] on a dictionary. *)
Definition dict_get (d : gmap str pyval) (key : str) (default : pyval)
    : pyval :=
  match d !! key with
  | Some v => v
  | None => default
  end.

(** [Exchange._handle_response(self, response)] *)
Definition _handle_response (response : gmap str pyval) : response_outcome :=
  if negb (truthy (dict_get response (lit "success") PNone)) then
    let error := dict_get response (lit "error") (PDict ∅) in
    match error with
    | PStr s => RaisedException (PStr s)
    | PDict d => RaisedException (dict_get d (lit "message") (PStr (lit "Unknown error")))
    | _ => RaisedAttributeError error
    end
  else Returned (dict_get response (lit "data") PNone).

(** The exception [_extract_api_error] receives: whether it is an
    [ApiException] with a non-empty [body], what [json.loads(e.body)] gives
    ([None] when it raises), and the text [str(e)]. *)
Record api_error : Type := {
  ae_body : option (option pyval);
  ae_str : str
}.

(** [Exchange._extract_api_error(self, e)]; every exception inside the
    [try] is dropped. *)
Definition _extract_api_error (e : api_error) : pyval :=
  match ae_body e with
  | Some (Some (PDict body_json)) =>
      if negb (truthy (dict_get body_json (lit "success") PNone)) then
        match body_json !! lit "error" with
        | Some (PDict error_detail) =>
            dict_get error_detail (lit "message") (PStr (ae_str e))
        | Some (PStr error_detail) => PStr error_detail
        | _ => PStr (ae_str e)
        end
      else PStr (ae_str e)
  | _ => PStr (ae_str e)
  end.

(** The fields of an [Exchange] that hold credentials. *)
Record credentials : Type := {
  api_key : option str;
  private_key : option str;
  proxy_address : option str;
  signature_type : pyval
}.

(** Truth value of an optional string. *)
Definition opt_truthy (s : option str) : bool :=
  match s with
  | Some t => str_truthy t
  | None => false
  end.

Definition put_if (cond : bool) (key : str) (v : pyval)
    (d : gmap str pyval) : gmap str pyval :=
  if cond then <[key := v]> d else d.

Definition str_value (s : option str) : pyval :=
  match s with
  | Some t => PStr t
  | None => PNone
  end.

(** [Exchange._get_credentials_dict(self)] *)
Definition _get_credentials_dict (self : credentials)
    : option (gmap str pyval) :=
  if negb (opt_truthy (api_key self)) && negb (opt_truthy (private_key self))
  then None
  else
    let creds : gmap str pyval := ∅ in
    let creds := put_if (opt_truthy (api_key self)) (lit "apiKey")
                   (str_value (api_key self)) creds in
    let creds := put_if (opt_truthy (private_key self)) (lit "privateKey")
                   (str_value (private_key self)) creds in
    let creds := put_if (opt_truthy (proxy_address self)) (lit "funderAddress")
                   (str_value (proxy_address self)) creds in
    let creds :=
      match signature_type self with
      | PNone => creds
      | v => <[lit "signatureType" := v]> creds
      end in
    if bool_decide (creds = ∅) then None else Some creds.

(** The fields of an [Exchange] that [load_markets] uses; [fetch_calls]
    counts the calls of [fetch_markets]. *)
Record market_cache : Type := {
  markets : gmap str UnifiedMarket;
  markets_by_slug : gmap str UnifiedMarket;
  _loaded_markets : bool;
  fetch_calls : nat
}.

(** The loop [for market in markets: self.markets[market.market_id] = market] *)
Definition index_markets (fetched : list UnifiedMarket)
    : gmap str UnifiedMarket :=
  fold_left (fun acc market => <[market_id market := market]> acc) fetched ∅.

(** [Exchange.load_markets(self, reload)]; [fetch_markets] is what the call
    [self.fetch_markets()] gives at this moment. *)
Definition load_markets (fetch_markets : result (list UnifiedMarket))
    (reload : bool) (self : market_cache)
    : result (gmap str UnifiedMarket) * market_cache :=
  if _loaded_markets self && negb reload then (Ok (markets self), self)
  else
    match fetch_markets with
    | Raise e =>
        (Raise e,
         {| markets := markets self; markets_by_slug := markets_by_slug self;
            _loaded_markets := _loaded_markets self;
            fetch_calls := S (fetch_calls self) |})
    | Ok fetched =>
        let self' :=
          {| markets := index_markets fetched; markets_by_slug := ∅;
             _loaded_markets := true;
             fetch_calls := S (fetch_calls self) |} in
        (Ok (markets self'), self')
    end.

End ClientHelpers.
Export ClientHelpers.

(** * More of the code *)

(** ** models.py and client.py: events *)

Module Events.

(** [@dataclass UnifiedEvent] *)
Record UnifiedEvent : Type := {
  ev_id : str;
  ev_title : str;
  ev_description : str;
  ev_slug : str;
  ev_markets : list UnifiedMarket;
  ev_url : str;
  ev_image : option str;
  ev_category : option str;
  ev_tags : option (list str)
}.

(** [EventFilterCriteria]: [None] is an absent key. *)
Record EventFilterCriteria : Type := {
  ec_text : option str;
  ec_search_in : option (list SearchField);
  ec_category : option str;
  ec_tags : option (list str);
  ec_market_count : option MinMax;
  ec_total_volume : option MinMax
}.

Inductive EventCriteria : Type :=
| EventStr (s : str)
| EventDict (params : EventFilterCriteria)
| EventFn (f : UnifiedEvent -> bool).

Definition event_category_ok (params : EventFilterCriteria)
    (event : UnifiedEvent) : bool :=
  match ec_category params with
  | Some cat => opt_string_eqb (ev_category event) cat
  | None => true
  end.

(** [len(event.markets)] as a number. *)
Definition market_count (event : UnifiedEvent) : Q :=
  inject_Z (Z.of_nat (length (ev_markets event))).

(** [sum] over exact numbers: [0 + x1 + x2 + ...]. *)
Definition exact_sum (xs : list Q) : Q := fold_left Qplus xs 0%Q.

Section Lower.

(** [str.lower] *)
Variable lower : str -> str.

(** The additions of [sum] round when the volumes are floating-point
    numbers, so the function that adds a list of numbers is a parameter of
    the filter; [exact_sum] is this function when no addition rounds. *)
Variable py_sum : list Q -> Q.

(** [s and lower_query in s.lower()] *)
Definition str_hit (lower_query s : str) : bool :=
  str_truthy s && str_in lower_query (lower s).

(** The [if]/[elif] chain of the text search of [filter_events]; it has no
    branch for the outcomes. *)
Definition event_text_match (lower_query : str)
    (search_in : list SearchField) (event : UnifiedEvent) : bool :=
  if in_search title_field search_in
     && str_hit lower_query (ev_title event) then true
  else if in_search description_field search_in
     && str_hit lower_query (ev_description event) then true
  else if in_search category_field search_in
     && opt_str_hit lower lower_query (ev_category event) then true
  else if in_search tags_field search_in
     && tags_hit lower lower_query (ev_tags event) then true
  else false.

Definition event_text_ok (params : EventFilterCriteria) (event : UnifiedEvent)
    : bool :=
  match ec_text params with
  | Some text =>
      let lower_query := lower text in
      let search_in :=
        match ec_search_in params with Some l => l | None => [title_field] end in
      event_text_match lower_query search_in event
  | None => true
  end.

Definition event_tags_ok (params : EventFilterCriteria) (event : UnifiedEvent)
    : bool :=
  match ec_tags params with
  | Some (q :: qs) =>
      match ev_tags event with
      | Some (t :: ts) =>
          let query_tags := map lower (q :: qs) in
          let event_tags := map lower (t :: ts) in
          existsb (fun x => existsb (str_eqb x) event_tags) query_tags
      | _ => false
      end
  | _ => true
  end.

(** [sum(m.volume_24h for m in event.markets)] *)
Definition total_volume (event : UnifiedEvent) : Q :=
  py_sum (map volume_24h (ev_markets event)).

(** The body of [for event in events]: [true] when the event is appended. *)
Definition event_passes (params : EventFilterCriteria) (event : UnifiedEvent)
    : bool :=
  if negb (event_text_ok params event) then false
  else if negb (event_category_ok params event) then false
  else if negb (event_tags_ok params event) then false
  else if negb (range_ok (ec_market_count params) (market_count event)) then false
  else if negb (range_ok (ec_total_volume params) (total_volume event)) then false
  else true.

Fixpoint filter_events_loop (params : EventFilterCriteria)
    (events : list UnifiedEvent) : list UnifiedEvent :=
  match events with
  | [] => []
  | event :: rest =>
      if event_passes params event
      then event :: filter_events_loop params rest
      else filter_events_loop params rest
  end.

(** [Exchange.filter_events(self, events, criteria)] *)
Definition filter_events (events : list UnifiedEvent) (criteria : EventCriteria)
    : list UnifiedEvent :=
  match criteria with
  | EventFn f => List.filter f events
  | EventStr s =>
      let lower_query := lower s in
      List.filter (fun e => str_hit lower_query (ev_title e)) events
  | EventDict params => filter_events_loop params events
  end.

End Lower.

End Events.
Export Events.

(** ** Vocabulary of the further statements *)

Module MoreSpec.

(** [{"text": q, "search_in": fields}] *)
Definition text_criteria (q : str) (fields : list SearchField)
    : MarketFilterCriteria :=
  {| c_text := Some q; c_search_in := Some fields; c_volume_24h := None;
     c_volume := None; c_liquidity := None; c_open_interest := None;
     c_resolution_date := None; c_category := None; c_tags := None;
     c_price := None; c_price_change_24h := None |}.

(** [{"category": cat}] *)
Definition category_criteria (cat : str) : MarketFilterCriteria :=
  {| c_text := None; c_search_in := None; c_volume_24h := None;
     c_volume := None; c_liquidity := None; c_open_interest := None;
     c_resolution_date := None; c_category := Some cat; c_tags := None;
     c_price := None; c_price_change_24h := None |}.

(** [{"tags": query_tags}] *)
Definition tags_criteria (query_tags : list str) : MarketFilterCriteria :=
  {| c_text := None; c_search_in := None; c_volume_24h := None;
     c_volume := None; c_liquidity := None; c_open_interest := None;
     c_resolution_date := None; c_category := None; c_tags := Some query_tags;
     c_price := None; c_price_change_24h := None |}.

(** [{"resolution_date": f}] *)
Definition date_criteria (f : DateRange) : MarketFilterCriteria :=
  {| c_text := None; c_search_in := None; c_volume_24h := None;
     c_volume := None; c_liquidity := None; c_open_interest := None;
     c_resolution_date := Some f; c_category := None; c_tags := None;
     c_price := None; c_price_change_24h := None |}.

(** [{"price": f}] and [{"price_change_24h": f}] *)
Definition price_criteria (f : PriceFilter) : MarketFilterCriteria :=
  {| c_text := None; c_search_in := None; c_volume_24h := None;
     c_volume := None; c_liquidity := None; c_open_interest := None;
     c_resolution_date := None; c_category := None; c_tags := None;
     c_price := Some f; c_price_change_24h := None |}.

Definition price_change_criteria (f : PriceFilter) : MarketFilterCriteria :=
  {| c_text := None; c_search_in := None; c_volume_24h := None;
     c_volume := None; c_liquidity := None; c_open_interest := None;
     c_resolution_date := None; c_category := None; c_tags := None;
     c_price := None; c_price_change_24h := Some f |}.

(** The range [{"min": lo, "max": hi}] of a price filter. *)
Definition price_range (f : PriceFilter) : MinMax :=
  {| mm_min := pf_min f; mm_max := pf_max f |}.

(** The market has one of the query tags, up to case. *)
Definition shares_tag (lower : str -> str) (query_tags : list str)
    (m : UnifiedMarket) : Prop :=
  exists q ts t, In q query_tags /\ tags m = Some ts /\ In t ts /\
                 lower q = lower t.

(** The date lies strictly inside the range. *)
Definition strictly_within (f : DateRange) (val : datetime) : Prop :=
  (forall b, dr_before f = Some b -> (dt_micros val < dt_micros b)%Z) /\
  (forall a, dr_after f = Some a -> (dt_micros a < dt_micros val)%Z).

(** The market has the text in one of the fields. *)
Definition hits_some_field (lower : str -> str) (q : str)
    (fields : list SearchField) (m : UnifiedMarket) : Prop :=
  exists field, In field fields /\ field_hit lower (lower q) m field = true.

(** The criteria for events without any key. *)
Definition no_event_criteria : EventFilterCriteria :=
  {| ec_text := None; ec_search_in := None; ec_category := None;
     ec_tags := None; ec_market_count := None; ec_total_volume := None |}.

(** [{"text": s, "search_in": ["title"]}] for events. *)
Definition event_title_text (s : str) : EventFilterCriteria :=
  {| ec_text := Some s; ec_search_in := Some [title_field];
     ec_category := None; ec_tags := None; ec_market_count := None;
     ec_total_volume := None |}.

(** [{"market_count": f}] and [{"total_volume": f}] *)
Definition market_count_criteria (f : MinMax) : EventFilterCriteria :=
  {| ec_text := None; ec_search_in := None; ec_category := None;
     ec_tags := None; ec_market_count := Some f; ec_total_volume := None |}.

Definition total_volume_criteria (f : MinMax) : EventFilterCriteria :=
  {| ec_text := None; ec_search_in := None; ec_category := None;
     ec_tags := None; ec_market_count := None; ec_total_volume := Some f |}.

(** Union of two criteria for events, key by key, and the keys of one not
    being keys of the other. *)
Definition event_criteria_union (c1 c2 : EventFilterCriteria)
    : EventFilterCriteria :=
  {| ec_text := key_union (ec_text c1) (ec_text c2);
     ec_search_in := key_union (ec_search_in c1) (ec_search_in c2);
     ec_category := key_union (ec_category c1) (ec_category c2);
     ec_tags := key_union (ec_tags c1) (ec_tags c2);
     ec_market_count := key_union (ec_market_count c1) (ec_market_count c2);
     ec_total_volume := key_union (ec_total_volume c1) (ec_total_volume c2) |}.

Definition event_keys_disjoint (c1 c2 : EventFilterCriteria) : Prop :=
  key_disjoint (ec_text c1) (ec_text c2) /\
  key_disjoint (ec_search_in c1) (ec_search_in c2) /\
  key_disjoint (ec_category c1) (ec_category c2) /\
  key_disjoint (ec_tags c1) (ec_tags c2) /\
  key_disjoint (ec_market_count c1) (ec_market_count c2) /\
  key_disjoint (ec_total_volume c1) (ec_total_volume c2).

Definition event_scope_with_text (c1 c2 : EventFilterCriteria) : Prop :=
  (ec_search_in c1 = None \/ ec_text c2 = None) /\
  (ec_search_in c2 = None \/ ec_text c1 = None).

(** An event with the given title, markets, category and tags. *)
Definition event_of (t : str) (ms : list UnifiedMarket)
    (cat : option str) (tgs : option (list str)) : UnifiedEvent :=
  {| ev_id := (lit ""); ev_title := t; ev_description := (lit ""); ev_slug := (lit "");
     ev_markets := ms; ev_url := (lit ""); ev_image := None; ev_category := cat;
     ev_tags := tgs |}.

(** The exception of a failed call whose body is the JSON document of the
    envelope [d]. *)
Definition api_exception (d : gmap str pyval) (text : str) : api_error :=
  {| ae_body := Some (Some (PDict d)); ae_str := text |}.

(** Markets with the same identifier are the same market. *)
Definition ids_identify (ms : list UnifiedMarket) : Prop :=
  forall m1 m2, In m1 ms -> In m2 ms -> market_id m1 = market_id m2 -> m1 = m2.

(** A cache that was never loaded. *)
Definition fresh_cache : market_cache :=
  {| markets := ∅; markets_by_slug := ∅; _loaded_markets := false;
     fetch_calls := 0 |}.

(** The port [is_server_alive] asks: the [port] of the lock file, and the
    default port when the lock file has none. *)
Definition lock_port (d : gmap str pyval) : pyval :=
  match d !! lit "port" with
  | Some x => x
  | None => PInt ServerManager.DEFAULT_PORT
  end.

(** The parts of the state the polling loop leaves alone. *)
Definition same_machine (w w' : ServerManager.world) : Prop :=
  ServerManager.w_lock w' = ServerManager.w_lock w /\
  ServerManager.w_procs w' = ServerManager.w_procs w /\
  ServerManager.w_launches w' = ServerManager.w_launches w /\
  ServerManager.w_health w' = ServerManager.w_health w /\
  ServerManager.w_latency w' = ServerManager.w_latency w /\
  ServerManager.w_oversleep w' = ServerManager.w_oversleep w.

(** A machine without a lock file whose launcher does not end within the
    time allowed. *)
Definition hanging_launcher_world : ServerManager.world :=
  {| ServerManager.w_lock := None; ServerManager.w_procs := ∅;
     ServerManager.w_pid := 100;
     ServerManager.w_clock := 0;
     ServerManager.w_health := fun _ _ _ => false;
     ServerManager.w_latency := fun _ _ _ => 5;
     ServerManager.w_oversleep := fun _ => 0;
     ServerManager.w_local_launcher := None;
     ServerManager.w_which := Some (lit "/usr/local/bin/pmxt-ensure-server");
     ServerManager.w_executable := fun _ => true;
     ServerManager.w_run := fun _ =>
       {| ServerManager.rr_outcome := ServerManager.TimedOut;
          ServerManager.rr_millis := 10 * 1000;
          ServerManager.rr_lock := None; ServerManager.rr_procs := ∅ |};
     ServerManager.w_launches := 0; ServerManager.w_polls := 0 |}.

(** A machine without a lock file and without a launcher. *)
Definition no_launcher_world : ServerManager.world :=
  {| ServerManager.w_lock := None; ServerManager.w_procs := ∅;
     ServerManager.w_pid := 100;
     ServerManager.w_clock := 0;
     ServerManager.w_health := fun _ _ _ => false;
     ServerManager.w_latency := fun _ _ _ => 5;
     ServerManager.w_oversleep := fun _ => 0;
     ServerManager.w_local_launcher := None;
     ServerManager.w_which := None;
     ServerManager.w_executable := fun _ => true;
     ServerManager.w_run := Sample.failing_run;
     ServerManager.w_launches := 0; ServerManager.w_polls := 0 |}.

(** A machine without a lock file where the launcher starts a server that
    answers on every port; a request takes 3.5 seconds, more than the
    timeout it is given, and a sleep of the polling loop lasts 20
    milliseconds longer than asked. *)
Definition launching_world : ServerManager.world :=
  {| ServerManager.w_lock := None; ServerManager.w_procs := ∅;
     ServerManager.w_pid := 100;
     ServerManager.w_clock := 0;
     ServerManager.w_health := fun _ _ _ => true;
     ServerManager.w_latency := fun _ _ _ => 3500;
     ServerManager.w_oversleep := fun _ => 20;
     ServerManager.w_local_launcher := None;
     ServerManager.w_which := Some (lit "/usr/local/bin/pmxt-ensure-server");
     ServerManager.w_executable := fun _ => true;
     ServerManager.w_run := fun _ =>
       {| ServerManager.rr_outcome :=
            ServerManager.Completed 0 (lit "") (lit "");
          ServerManager.rr_millis := 300;
          ServerManager.rr_lock :=
            Some (Sample.lock_of (Sample.lock_data 4242));
          ServerManager.rr_procs := Sample.process 4242 |};
     ServerManager.w_launches := 0; ServerManager.w_polls := 0 |}.

End MoreSpec.
Export MoreSpec.
(** * Properties *)

(** ** Strings *)

Section StringFacts.

Lemma str_eqb_eq (a b : str) : str_eqb a b = true <-> a = b.
Proof.
  revert b. induction a as [|x a IH]; intros [|y b]; simpl;
    try (split; [discriminate | congruence]); [tauto|].
  rewrite andb_true_iff, N.eqb_eq, IH.
  split; [intros [-> ->]; reflexivity | intros [= -> ->]; auto].
Qed.

Lemma str_eqb_refl (a : str) : str_eqb a a = true.
Proof. now apply str_eqb_eq. Qed.

Lemma startswith_iff (p s : str) :
  startswith p s = true <-> exists rest, s = p ++ rest.
Proof.
  revert s. induction p as [|c p IH]; intros s.
  - split; [intros _; now exists s | intros _; now destruct s].
  - destruct s as [|d s]; simpl.
    + split; [discriminate | intros [rest H]; discriminate].
    + rewrite andb_true_iff, N.eqb_eq, IH. split.
      * intros [-> [rest ->]]. now exists rest.
      * intros [rest [= -> ->]]. split; [reflexivity | now exists rest].
Qed.

(** [sub in s] holds exactly when [s] splits around a copy of [sub]. *)
Lemma str_in_iff (sub s : str) : str_in sub s = true <-> occurs_in sub s.
Proof.
  unfold occurs_in. induction s as [|c s IH].
  - simpl. rewrite orb_false_r, startswith_iff. split.
    + intros [rest H]. now exists [], rest.
    + intros [pre [post H]]. destruct pre; simpl in H.
      * now exists post.
      * discriminate.
  - cbn [str_in]. rewrite orb_true_iff, IH, startswith_iff. split.
    + intros [[rest H] | [pre [post H]]].
      * now exists [], rest.
      * exists (c :: pre), post. simpl. now rewrite H.
    + intros [pre [post H]]. destruct pre as [|d pre]; simpl in H.
      * left. now exists post.
      * right. injection H as _ H. now exists pre, post.
Qed.

Lemma str_in_here (sub pre post : str) :
  str_in sub (pre ++ sub ++ post) = true.
Proof. apply str_in_iff. now exists pre, post. Qed.

Lemma str_in_trans (a b c : str) :
  str_in a b = true -> str_in b c = true -> str_in a c = true.
Proof.
  rewrite !str_in_iff. intros [p1 [q1 ->]] [p2 [q2 ->]].
  exists (p2 ++ p1), (q1 ++ q2). now rewrite <- !app_assoc.
Qed.

Lemma str_in_app_r (a pre s : str) :
  str_in a s = true -> str_in a (pre ++ s) = true.
Proof.
  intros H. apply (str_in_trans _ _ _ H).
  apply str_in_iff. exists pre, []. now rewrite app_nil_r.
Qed.

Lemma str_in_app_l (a s post : str) :
  str_in a s = true -> str_in a (s ++ post) = true.
Proof.
  intros H. apply (str_in_trans _ _ _ H).
  apply str_in_iff. now exists [], post.
Qed.

(** [s[:n]] is the list of the first [n] characters. *)
Lemma slice_to_take (n : nat) (s : str) : slice_to n s = take n s.
Proof.
  revert s. induction n as [|n IH]; intros [|c s]; reflexivity.
Qed.

Lemma slice_to_all (n : nat) (s : str) :
  (length s <= n)%nat -> slice_to n s = s.
Proof. intros H. rewrite slice_to_take. now apply take_ge. Qed.

Lemma slice_to_length (n : nat) (s : str) :
  (n <= length s)%nat -> length (slice_to n s) = n.
Proof. intros H. rewrite slice_to_take, length_take. lia. Qed.

Lemma str_in_join (sep p : str) (parts : list str) :
  In p parts -> str_in p (join sep parts) = true.
Proof.
  induction parts as [|a parts IH]; intros Hin; [destruct Hin|].
  destruct Hin as [->|Hin].
  - destruct parts as [|b parts]; simpl.
    + apply str_in_iff. exists [], []. simpl. now rewrite app_nil_r.
    + apply str_in_iff. now exists [], (sep ++ join sep (b :: parts)).
  - specialize (IH Hin). destruct parts as [|b parts]; [destruct Hin|].
    change (join sep (a :: b :: parts))
      with (a ++ sep ++ join sep (b :: parts)).
    now apply str_in_app_r, str_in_app_r.
Qed.

(** The title part of a line: [m.title[:70]] and the dots. *)
Lemma shown_title_spec (t : str) :
  slice_to 70 t ++ (if (70 <? length t)%nat then lit "..." else lit "") =
  shown_title t.
Proof.
  unfold shown_title. destruct (Nat.ltb_spec 70 (length t)) as [H|H].
  - rewrite decide_False by lia. now rewrite slice_to_take.
  - rewrite decide_True by lia. rewrite slice_to_all by lia.
    apply app_nil_r.
Qed.

(** The lines [match] builds are the numbered titles. *)
Lemma title_lines_from (i : nat) (ms : list UnifiedMarket) :
  map title_line (enumerate_from i ms) =
  imap (fun k m => str_of_nat (S (i + k)) ++ lit ". " ++ shown_title (title m))
    ms.
Proof.
  revert i. induction ms as [|m ms IH]; intros i; [reflexivity|].
  cbn [enumerate_from map imap]. f_equal.
  - unfold title_line. cbn [fst snd].
    rewrite shown_title_spec. now rewrite Nat.add_0_r, Nat.add_1_r.
  - rewrite IH. apply imap_ext. intros k x _. cbn.
    now rewrite Nat.add_succ_r.
Qed.

Lemma title_lines (ms : list UnifiedMarket) :
  map title_line (enumerate ms) = numbered_titles ms.
Proof. apply title_lines_from. Qed.

Lemma In_numbered_titles (m : UnifiedMarket) (ms : list UnifiedMarket) :
  In m ms ->
  exists k, In (str_of_nat (S k) ++ lit ". " ++ shown_title (title m))
              (numbered_titles ms).
Proof.
  intros Hin. apply list_elem_of_In, list_elem_of_lookup in Hin as [k Hk].
  exists k. apply list_elem_of_In. unfold numbered_titles.
  now apply (elem_of_lookup_imap_2
               (fun i m => str_of_nat (S i) ++ lit ". " ++ shown_title (title m))).
Qed.

End StringFacts.

(** ** [MarketList.match] *)

Section Match.

Variable lower : str -> str.

Lemma contains_ci_iff (q t : str) :
  str_in (lower q) (lower t) = true <-> contains_ci lower q t.
Proof. apply str_in_iff. Qed.

Lemma str_truthy_iff (s : str) : str_truthy s = true <-> s <> [].
Proof. destruct s; simpl; split; congruence. Qed.

Lemma title_hit_iff (q : str) (m : UnifiedMarket) :
  field_hit lower (lower q) m title_field = true <-> title_matches lower q m.
Proof.
  unfold title_matches. simpl.
  now rewrite andb_true_iff, str_truthy_iff, contains_ci_iff.
Qed.

Lemma title_miss (q : str) (m : UnifiedMarket) :
  ~ title_matches lower q m -> field_hit lower (lower q) m title_field = false.
Proof.
  intros H. apply not_true_is_false. now rewrite title_hit_iff.
Qed.

Lemma scan_title (lq : str) (m : UnifiedMarket) :
  scan_fields lower lq m [title_field] = field_hit lower lq m title_field.
Proof. unfold scan_fields. now destruct (field_hit lower lq m title_field). Qed.

Lemma collect_app (lq : str) (fields : list SearchField)
    (l1 l2 : list UnifiedMarket) :
  collect_matches lower lq fields (l1 ++ l2) =
  collect_matches lower lq fields l1 ++ collect_matches lower lq fields l2.
Proof.
  induction l1 as [|m l1 IH]; simpl; [reflexivity|].
  destruct (scan_fields lower lq m fields); simpl; now rewrite IH.
Qed.

Lemma collect_none (q : str) (l : list UnifiedMarket) :
  none_of (title_matches lower q) l ->
  collect_matches lower (lower q) [title_field] l = [].
Proof.
  induction 1 as [|m l Hm _ IH]; [reflexivity|].
  cbn [collect_matches]. now rewrite scan_title, (title_miss _ _ Hm).
Qed.

Lemma collect_hit (q : str) (m : UnifiedMarket) (l : list UnifiedMarket) :
  title_matches lower q m ->
  collect_matches lower (lower q) [title_field] (m :: l) =
  m :: collect_matches lower (lower q) [title_field] l.
Proof.
  intros Hm. cbn [collect_matches].
  rewrite scan_title. apply title_hit_iff in Hm. now rewrite Hm.
Qed.

(** The list [matches] holds the markets the test of the loop accepts, in
    their order. *)
Lemma collect_filter (lq : str) (fields : list SearchField)
    (l : list UnifiedMarket) :
  collect_matches lower lq fields l =
  List.filter (fun m => scan_fields lower lq m fields) l.
Proof.
  induction l as [|m l IH]; [reflexivity|]. cbn [collect_matches List.filter].
  now rewrite IH.
Qed.

Lemma collect_In (q : str) (m : UnifiedMarket) (l : list UnifiedMarket) :
  In m (collect_matches lower (lower q) [title_field] l) <->
  In m l /\ title_matches lower q m.
Proof.
  rewrite collect_filter, filter_In, scan_title, title_hit_iff. tauto.
Qed.

(** The message of the second [raise], line by line. *)
Lemma multiple_match_msg_lines (query : str) (matches : list UnifiedMarket) :
  multiple_match_msg query matches =
  lit "Multiple markets matching '" ++ query ++ lit "' (" ++
  str_of_nat (length matches) ++ lit " matches):" ++ nl ++ lit "  " ++
  join (nl ++ lit "  ") (numbered_titles matches) ++
  nl ++ nl ++ lit "Please refine your search.".
Proof. unfold multiple_match_msg, titles_str. now rewrite title_lines. Qed.

(** The message shows the title of every market of [matches], cut after 70
    characters. *)
Lemma multiple_match_msg_shows (query : str) (matches : list UnifiedMarket)
    (m : UnifiedMarket) :
  In m matches ->
  str_in (shown_title (title m)) (multiple_match_msg query matches) = true.
Proof.
  intros Hin. destruct (In_numbered_titles m matches Hin) as [k Hk].
  rewrite multiple_match_msg_lines.
  do 7 apply str_in_app_r. apply str_in_app_l.
  apply (str_in_trans _ (str_of_nat (S k) ++ lit ". " ++ shown_title (title m))).
  - do 2 apply str_in_app_r. apply str_in_iff. exists [], [].
    now rewrite app_nil_r.
  - now apply str_in_join.
Qed.

(** With two markets or more in [matches], [match] raises the second
    error. *)
Lemma match_many (self : list UnifiedMarket) (query : str)
    (fields : option (list SearchField)) (matches : list UnifiedMarket) :
  collect_matches lower (lower query)
    (match fields with None => [title_field] | Some l => l end) self = matches ->
  (2 <= length matches)%nat ->
  match_ lower self query fields =
    Raise (Exn ValueError (multiple_match_msg query matches)).
Proof.
  intros <- Hlen. unfold match_.
  destruct (Nat.eqb_spec
              (length (collect_matches lower (lower query)
                         (match fields with None => [title_field] | Some l => l end)
                         self)) 0) as [E|_]; [lia|].
  destruct (Nat.ltb_spec 1
              (length (collect_matches lower (lower query)
                         (match fields with None => [title_field] | Some l => l end)
                         self))) as [_|E]; [reflexivity|lia].
Qed.

(** C1, amended.  With the default search in titles, a market matches when
    its title is not empty and contains the query up to case, that is, the
    lowercase form of the query occurs in the lowercase form of the title.
    When one market of the list matches, [match] returns it; when none does,
    [match] raises [ValueError] with the message [No markets matching
    '<query>'], which contains the query; when two or more do, [match] raises
    [ValueError] with the message [Multiple markets matching '<query>' (<n>
    matches):], then one line [<i>. <title>] for each matching market, in
    the order of the list and numbered from 1, then [Please refine your
    search.]; a title of more than 70 characters is shown as its first 70
    characters followed by [...], a shorter one whole. *)
Theorem match_totality (self : list UnifiedMarket) (query : str) :
  (forall m, exactly_one (title_matches lower query) self m ->
     match_ lower self query None = Ok m) /\
  (none_of (title_matches lower query) self ->
     match_ lower self query None =
       Raise (Exn ValueError (lit "No markets matching '" ++ query ++ lit "'")) /\
     str_in query (lit "No markets matching '" ++ query ++ lit "'") = true) /\
  (at_least_two (title_matches lower query) self ->
     exists (keep : UnifiedMarket -> bool) (matches : list UnifiedMarket)
            (msg : str),
       (forall m, keep m = true <-> title_matches lower query m) /\
       matches = List.filter keep self /\
       msg = lit "Multiple markets matching '" ++ query ++ lit "' (" ++
             str_of_nat (length matches) ++ lit " matches):" ++ nl ++
             lit "  " ++ join (nl ++ lit "  ") (numbered_titles matches) ++
             nl ++ nl ++ lit "Please refine your search." /\
       match_ lower self query None = Raise (Exn ValueError msg) /\
       startswith (lit "Multiple markets matching") msg = true /\
       (forall m, In m self -> title_matches lower query m ->
          str_in (shown_title (title m)) msg = true)).
Proof.
  split; [|split].
  - intros m [l1 [l2 [-> [Hm [H1 H2]]]]]. unfold match_.
    rewrite collect_app, (collect_none _ _ H1), (collect_hit _ _ _ Hm),
      (collect_none _ _ H2). reflexivity.
  - intros Hnone. unfold match_. rewrite (collect_none _ _ Hnone).
    split; [reflexivity|]. apply str_in_here.
  - intros [l1 [a [l2 [b [l3 [-> [Ha Hb]]]]]]].
    set (self := l1 ++ a :: l2 ++ b :: l3).
    set (keep := fun m => field_hit lower (lower query) m title_field).
    assert (Hcollect : collect_matches lower (lower query) [title_field] self
                       = List.filter keep self).
    { rewrite collect_filter. apply filter_ext. intros m. apply scan_title. }
    assert (Hlen : (2 <= length (List.filter keep self))%nat).
    { rewrite <- Hcollect. unfold self.
      rewrite collect_app, (collect_hit _ _ _ Ha), collect_app,
        (collect_hit _ _ _ Hb).
      rewrite length_app. cbn [length]. rewrite length_app. cbn [length]. lia. }
    exists keep, (List.filter keep self),
      (multiple_match_msg query (List.filter keep self)).
    split; [intros m; apply title_hit_iff|].
    split; [reflexivity|].
    split; [apply multiple_match_msg_lines|].
    split; [now apply match_many|].
    split; [reflexivity|].
    intros m Hin Hm. apply multiple_match_msg_shows.
    apply filter_In. split; [exact Hin | now apply title_hit_iff].
Qed.

End Match.

(** C1 fails as stated: the empty query is contained in the empty title, so
    exactly one market of the list contains the query, but [match] skips a
    market whose title is empty and raises instead of returning it. *)
Lemma match_totality_counterexample :
  exactly_one (fun m => contains_ci Sample.ascii_lower (lit "") (title m))
    [Sample.untitled] Sample.untitled /\
  match_ Sample.ascii_lower [Sample.untitled] (lit "") None =
    Raise (Exn ValueError (lit "No markets matching ''")).
Proof.
  split; [|reflexivity].
  exists [], []. split; [reflexivity|]. split; [|split; constructor].
  exists [], []. reflexivity.
Qed.

Lemma match_totality_witness :
  match_ Sample.ascii_lower Sample.records (lit "Trump") None
    = Ok Sample.trump /\
  match_ Sample.ascii_lower Sample.records (lit "zzz") None =
    Raise (Exn ValueError (lit "No markets matching 'zzz'")) /\
  match_ Sample.ascii_lower (Sample.long_market :: Sample.records)
    (lit "WILL") None =
    Raise (Exn ValueError
      (lit "Multiple markets matching 'WILL' (2 matches):" ++ nl ++
       lit "  1. Will the candidate who leads the polls in March win the election in No..."
       ++ nl ++ lit "  2. Will Trump win?" ++ nl ++ nl ++
       lit "Please refine your search.")).
Proof.
  destruct (match_totality Sample.ascii_lower Sample.records (lit "Trump"))
    as [Hone _].
  destruct (match_totality Sample.ascii_lower Sample.records (lit "zzz"))
    as [_ [Hnone _]].
  destruct (match_totality Sample.ascii_lower
              (Sample.long_market :: Sample.records) (lit "WILL"))
    as [_ [_ Hmany]].
  split; [|split].
  - apply Hone. exists [], [Sample.bitcoin; Sample.biden].
    split; [reflexivity|]. split; [|split].
    + apply title_hit_iff. reflexivity.
    + constructor.
    + repeat constructor; intros H; apply title_hit_iff in H;
        vm_compute in H; discriminate.
  - apply Hnone.
    repeat constructor; intros H; apply title_hit_iff in H;
      vm_compute in H; discriminate.
  - destruct Hmany as (keep & matches & msg & Hkeep & -> & -> & Hraise & _).
    + exists [], Sample.long_market, [], Sample.trump,
        [Sample.bitcoin; Sample.biden].
      split; [reflexivity|]. split; apply title_hit_iff; reflexivity.
    + rewrite Hraise.
      assert (Hk : forall m,
                 keep m = field_hit Sample.ascii_lower
                            (Sample.ascii_lower (lit "WILL")) m title_field).
      { intros m. apply eq_true_iff_eq. now rewrite Hkeep, title_hit_iff. }
      unfold Sample.records. cbn [List.filter]. rewrite !Hk.
      reflexivity.
Defined.

(** ** [Exchange.filter_markets] *)

Section Filter.

Variable lower : str -> str.

Lemma filter_loop_pure (c : MarketFilterCriteria) (keep : UnifiedMarket -> bool)
    (R : list UnifiedMarket) :
  Forall (fun m => market_passes lower c m = Ok (keep m)) R ->
  filter_loop lower c R = Ok (List.filter keep R).
Proof.
  induction 1 as [|m R Hm _ IH]; [reflexivity|].
  cbn [filter_loop List.filter]. rewrite Hm, IH. cbn.
  now destruct (keep m).
Qed.

Lemma filter_loop_In (c : MarketFilterCriteria) (R res : list UnifiedMarket) :
  filter_loop lower c R = Ok res ->
  forall m, In m res -> In m R /\ market_passes lower c m = Ok true.
Proof.
  revert res. induction R as [|x R IH]; intros res H m Hin.
  - injection H as <-. destruct Hin.
  - cbn [filter_loop] in H.
    destruct (market_passes lower c x) as [keep|e] eqn:Hx; [|discriminate].
    destruct (filter_loop lower c R) as [results|e] eqn:HR; [|discriminate].
    cbn in H. injection H as <-.
    destruct keep.
    + destruct Hin as [<-|Hin]; [split; [now left | exact Hx]|].
      destruct (IH _ eq_refl _ Hin). split; [now right | assumption].
    + destruct (IH _ eq_refl _ Hin). split; [now right | assumption].
Qed.

(** The body of the loop: the constraints before the dates, the date range,
    the constraints after it. *)
Lemma market_passes_chain (c : MarketFilterCriteria) (m : UnifiedMarket) :
  market_passes lower c m =
  if before_date_ok lower c m
  then b ← date_ok c m; Ok (b && after_date_ok c m)
  else Ok false.
Proof.
  unfold market_passes, before_date_ok, after_date_ok.
  destruct (text_ok lower c m); [|reflexivity].
  destruct (category_ok c m); [|reflexivity].
  destruct (tags_ok lower c m); [|reflexivity].
  destruct (range_ok (c_volume_24h c) (volume_24h m)); [|reflexivity].
  destruct (range_ok (c_volume c) (or_zero (volume m))); [|reflexivity].
  destruct (range_ok (c_liquidity c) (liquidity m)); [|reflexivity].
  destruct (range_ok (c_open_interest c) (or_zero (open_interest m)));
    [|reflexivity].
  cbn. destruct (date_ok c m) as [[|]|e]; cbn; [|reflexivity|reflexivity].
  destruct (price_ok c m); [|reflexivity].
  now destruct (price_change_24h_ok c m).
Qed.

Lemma date_ok_comparable (c : MarketFilterCriteria) (m : UnifiedMarket) :
  date_comparable c m -> date_ok c m = Ok (date_within c m).
Proof.
  unfold date_comparable, date_ok, date_within.
  destruct (c_resolution_date c) as [f|]; [|reflexivity].
  destruct (resolution_date m) as [val|]; [|reflexivity].
  unfold bound_comparable, dt_ge, dt_le.
  destruct (dr_before f) as [b|], (dr_after f) as [a|]; intros [Hb Ha];
    try rewrite <- Hb; try rewrite <- Ha; rewrite ?eqb_reflx; cbn;
    try destruct (dt_micros b <=? dt_micros val)%Z; cbn; try reflexivity.
Qed.

Lemma market_passes_verdict (c : MarketFilterCriteria) (m : UnifiedMarket) :
  date_comparable c m -> market_passes lower c m = Ok (verdict lower c m).
Proof.
  intros H. rewrite market_passes_chain, (date_ok_comparable _ _ H).
  unfold verdict. now destruct (before_date_ok lower c m).
Qed.

(** When the dates can be ordered, the filter keeps exactly the markets on
    which every constraint holds, in their order. *)
Lemma filter_verdict (c : MarketFilterCriteria) (R : list UnifiedMarket) :
  dates_comparable c R ->
  filter_markets lower R (CriteriaDict c) = Ok (List.filter (verdict lower c) R).
Proof.
  intros H. apply filter_loop_pure.
  eapply List.Forall_impl; [|exact H]. apply market_passes_verdict.
Qed.

Lemma no_date_comparable (c : MarketFilterCriteria) (R : list UnifiedMarket) :
  c_resolution_date c = None -> dates_comparable c R.
Proof.
  intros H. apply Forall_forall. intros m _.
  unfold date_comparable. now rewrite H.
Qed.

Lemma verdict_title_text (s : str) (m : UnifiedMarket) :
  verdict lower (title_text_criteria s) m =
  str_truthy (title m) && str_in (lower s) (lower (title m)).
Proof.
  unfold verdict, before_date_ok, after_date_ok, date_within, text_ok,
    text_match. cbn.
  now destruct (str_truthy (title m)), (str_in (lower s) (lower (title m))).
Qed.

(** C2.  Filtering with the string [s] and filtering with the dictionary
    [{"text": s, "search_in": ["title"]}] return the same list: the markets
    whose title is not empty and contains [s] up to case, in the order of
    the input. *)
Theorem string_filter_equivalence (R : list UnifiedMarket) (s : str) :
  filter_markets lower R (CriteriaStr s) =
    filter_markets lower R (CriteriaDict (title_text_criteria s)) /\
  exists keep,
    (forall m, keep m = true <-> title_matches lower s m) /\
    filter_markets lower R (CriteriaStr s) = Ok (List.filter keep R).
Proof.
  split.
  - rewrite filter_verdict by now apply no_date_comparable.
    cbn [filter_markets]. f_equal. apply filter_ext.
    intros m. now rewrite verdict_title_text.
  - exists (fun m => field_hit lower (lower s) m title_field).
    split; [intros m; apply title_hit_iff | reflexivity].
Qed.

(** *** Numeric ranges *)

Lemma num_lt_iff (a b : Q) : num_lt a b = true <-> (a < b)%Q.
Proof.
  unfold num_lt. rewrite negb_true_iff, <- not_true_iff_false, Qle_bool_iff.
  split; [apply Qnot_le_lt | apply Qlt_not_le].
Qed.

Lemma num_gt_iff (a b : Q) : num_gt a b = true <-> (b < a)%Q.
Proof.
  unfold num_gt. rewrite negb_true_iff, <- not_true_iff_false, Qle_bool_iff.
  split; [apply Qnot_le_lt | apply Qlt_not_le].
Qed.

Lemma range_rejects_iff (f : MinMax) (val : Q) :
  range_rejects f val = true <-> outside f val.
Proof.
  unfold range_rejects, outside. rewrite orb_true_iff.
  assert (Hmin : match mm_min f with Some lo => num_lt val lo | None => false end
                 = true <-> exists lo, mm_min f = Some lo /\ (val < lo)%Q).
  { destruct (mm_min f) as [lo|].
    - rewrite num_lt_iff. split; [intros H; now exists lo|].
      now intros [lo' [[= <-] H]].
    - split; [discriminate | now intros [lo [? _]]]. }
  assert (Hmax : match mm_max f with Some hi => num_gt val hi | None => false end
                 = true <-> exists hi, mm_max f = Some hi /\ (hi < val)%Q).
  { destruct (mm_max f) as [hi|].
    - rewrite num_gt_iff. split; [intros H; now exists hi|].
      now intros [hi' [[= <-] H]].
    - split; [discriminate | now intros [hi [? _]]]. }
  tauto.
Qed.

Lemma outside_compat (f : MinMax) (v v' : Q) :
  (v == v')%Q -> outside f v -> outside f v'.
Proof.
  intros E [[lo [H1 H2]]|[hi [H1 H2]]]; [left; exists lo | right; exists hi];
    (split; [assumption|]); now rewrite <- E.
Qed.

(** [x or 0] has the value of [x], and [0] when [x] is absent. *)
Lemma or_zero_value (x : option Q) :
  (or_zero x == match x with Some q => q | None => 0 end)%Q.
Proof.
  destruct x as [q|]; [|reflexivity]. unfold or_zero, num_truthy.
  destruct (Qeq_bool q 0) eqn:E; cbn; [|reflexivity].
  symmetry. now apply Qeq_bool_iff.
Qed.

(** The value the loop compares with the range of [key]. *)
Lemma verdict_range (key : RangeKey) (f : MinMax) (m : UnifiedMarket) :
  exists val, (val == range_value key m)%Q /\
    verdict lower (range_criteria key f) m = negb (range_rejects f val).
Proof.
  destruct key;
    [exists (volume_24h m) | exists (or_zero (volume m))
    | exists (liquidity m) | exists (or_zero (open_interest m))];
    (split; [try reflexivity; apply or_zero_value|]);
    unfold verdict, before_date_ok, after_date_ok, date_within; cbn;
    now rewrite ?andb_true_r.
Qed.

Lemma verdict_range_iff (key : RangeKey) (f : MinMax) (m : UnifiedMarket) :
  verdict lower (range_criteria key f) m = true <-> ~ outside f (range_value key m).
Proof.
  destruct (verdict_range key f m) as [val [E ->]].
  rewrite negb_true_iff, <- not_true_iff_false, range_rejects_iff.
  split; intros H Hout; apply H; revert Hout; apply outside_compat;
    [now symmetry | assumption].
Qed.

(** C4.  A dictionary with one numeric range keeps, in their order, exactly
    the markets whose value is neither strictly below the [min] nor strictly
    above the [max]; on the three sample markets the range
    [{"volume_24h": {"min": 40000}}] keeps the Trump and the Bitcoin market,
    in this order. *)
Theorem numeric_range_filter :
  (forall (key : RangeKey) (f : MinMax) (R : list UnifiedMarket),
     exists keep,
       (forall m, keep m = false <-> outside f (range_value key m)) /\
       filter_markets lower R (CriteriaDict (range_criteria key f)) =
         Ok (List.filter keep R)) /\
  filter_markets lower Sample.records (CriteriaDict Sample.volume_min_40000) =
    Ok [Sample.trump; Sample.bitcoin].
Proof.
  split; [|reflexivity].
  intros key f R. exists (verdict lower (range_criteria key f)). split.
  - intros m. rewrite <- not_true_iff_false, verdict_range_iff.
    split; [|tauto]. intros H.
    destruct (verdict_range key f m) as [val [E _]].
    destruct (range_rejects f val) eqn:Hr.
    + apply range_rejects_iff in Hr. revert Hr. now apply outside_compat.
    + exfalso. apply H. intros Hout.
      apply (outside_compat _ _ val) in Hout; [|now symmetry].
      apply range_rejects_iff in Hout. congruence.
  - apply filter_verdict. now apply no_date_comparable; destruct key.
Qed.

(** *** The date range *)

Lemma undated_rejected (params : MarketFilterCriteria) (f : DateRange)
    (m : UnifiedMarket) :
  c_resolution_date params = Some f -> resolution_date m = None ->
  market_passes lower params m = Ok false.
Proof.
  intros Hf Hm. rewrite market_passes_chain.
  destruct (before_date_ok lower params m); [|reflexivity].
  unfold date_ok. now rewrite Hf, Hm.
Qed.

(** C10.  When the criteria hold a [resolution_date] range, a market without
    a resolution date reaches [continue], and no market of the filtered
    list lacks a resolution date. *)
Theorem date_constraint_rejects_absent (R res : list UnifiedMarket)
    (params : MarketFilterCriteria) (f : DateRange) :
  c_resolution_date params = Some f ->
  filter_markets lower R (CriteriaDict params) = Ok res ->
  (forall m, resolution_date m = None -> market_passes lower params m = Ok false) /\
  (forall m, In m res -> resolution_date m <> None).
Proof.
  intros Hf Hres. split.
  - intros m. now apply undated_rejected with (f := f).
  - intros m Hin Hnone.
    destruct (filter_loop_In _ _ _ Hres m Hin) as [_ Hpass].
    rewrite (undated_rejected _ _ _ Hf Hnone) in Hpass. discriminate.
Qed.

(** *** Union of criteria *)

Lemma range_ok_union (a b : option MinMax) (val : Q) :
  key_disjoint a b ->
  range_ok (key_union a b) val = range_ok a val && range_ok b val.
Proof.
  intros [->| ->]; [reflexivity|].
  destruct a; cbn; now rewrite ?andb_true_r.
Qed.

Lemma text_ok_union (c1 c2 : MarketFilterCriteria) (m : UnifiedMarket) :
  key_disjoint (c_text c1) (c_text c2) ->
  key_disjoint (c_search_in c1) (c_search_in c2) ->
  scope_with_text c1 c2 ->
  text_ok lower (criteria_union c1 c2) m = text_ok lower c1 m && text_ok lower c2 m.
Proof.
  unfold text_ok, scope_with_text, key_disjoint. cbn.
  destruct (c_text c1), (c_text c2), (c_search_in c1), (c_search_in c2);
    cbn; intros [?|?] [?|?] [[?|?] [?|?]]; try discriminate;
    now rewrite ?andb_true_r.
Qed.

Lemma category_ok_union (c1 c2 : MarketFilterCriteria) (m : UnifiedMarket) :
  key_disjoint (c_category c1) (c_category c2) ->
  category_ok (criteria_union c1 c2) m = category_ok c1 m && category_ok c2 m.
Proof.
  unfold category_ok, key_disjoint. cbn.
  destruct (c_category c1), (c_category c2); cbn; intros [?|?];
    try discriminate; now rewrite ?andb_true_r.
Qed.

Lemma tags_ok_union (c1 c2 : MarketFilterCriteria) (m : UnifiedMarket) :
  key_disjoint (c_tags c1) (c_tags c2) ->
  tags_ok lower (criteria_union c1 c2) m = tags_ok lower c1 m && tags_ok lower c2 m.
Proof.
  unfold tags_ok, key_disjoint. cbn.
  destruct (c_tags c1) as [[|? ?]|], (c_tags c2) as [[|? ?]|]; cbn;
    intros [?|?]; try discriminate; now rewrite ?andb_true_r.
Qed.

Lemma date_within_union (c1 c2 : MarketFilterCriteria) (m : UnifiedMarket) :
  key_disjoint (c_resolution_date c1) (c_resolution_date c2) ->
  date_within (criteria_union c1 c2) m = date_within c1 m && date_within c2 m.
Proof.
  unfold date_within, key_disjoint. cbn.
  destruct (c_resolution_date c1), (c_resolution_date c2); cbn; intros [?|?];
    try discriminate; now rewrite ?andb_true_r.
Qed.

Lemma price_ok_union (c1 c2 : MarketFilterCriteria) (m : UnifiedMarket) :
  key_disjoint (c_price c1) (c_price c2) ->
  price_ok (criteria_union c1 c2) m = price_ok c1 m && price_ok c2 m.
Proof.
  unfold price_ok, key_disjoint. cbn.
  destruct (c_price c1), (c_price c2); cbn; intros [?|?];
    try discriminate; now rewrite ?andb_true_r.
Qed.

Lemma price_change_24h_ok_union (c1 c2 : MarketFilterCriteria)
    (m : UnifiedMarket) :
  key_disjoint (c_price_change_24h c1) (c_price_change_24h c2) ->
  price_change_24h_ok (criteria_union c1 c2) m =
  price_change_24h_ok c1 m && price_change_24h_ok c2 m.
Proof.
  unfold price_change_24h_ok, key_disjoint. cbn.
  destruct (c_price_change_24h c1), (c_price_change_24h c2); cbn; intros [?|?];
    try discriminate; now rewrite ?andb_true_r.
Qed.

(** The constraints of a union are the constraints of its two parts. *)
Lemma verdict_union (c1 c2 : MarketFilterCriteria) (m : UnifiedMarket) :
  keys_disjoint c1 c2 -> scope_with_text c1 c2 ->
  verdict lower (criteria_union c1 c2) m = verdict lower c1 m && verdict lower c2 m.
Proof.
  intros (Ht & Hs & Hv24 & Hv & Hl & Ho & Hd & Hc & Hg & Hp & Hpc) Hscope.
  unfold verdict, before_date_ok, after_date_ok.
  rewrite (text_ok_union _ _ m Ht Hs Hscope), (category_ok_union _ _ m Hc),
    (tags_ok_union _ _ m Hg), (date_within_union _ _ m Hd),
    (price_ok_union _ _ m Hp), (price_change_24h_ok_union _ _ m Hpc).
  change (c_volume_24h (criteria_union c1 c2))
    with (key_union (c_volume_24h c1) (c_volume_24h c2)).
  change (c_volume (criteria_union c1 c2))
    with (key_union (c_volume c1) (c_volume c2)).
  change (c_liquidity (criteria_union c1 c2))
    with (key_union (c_liquidity c1) (c_liquidity c2)).
  change (c_open_interest (criteria_union c1 c2))
    with (key_union (c_open_interest c1) (c_open_interest c2)).
  rewrite (range_ok_union _ _ _ Hv24), (range_ok_union _ _ _ Hv),
    (range_ok_union _ _ _ Hl), (range_ok_union _ _ _ Ho).
  btauto.
Qed.

Lemma date_comparable_union (c1 c2 : MarketFilterCriteria) (m : UnifiedMarket) :
  date_comparable c1 m -> date_comparable c2 m ->
  date_comparable (criteria_union c1 c2) m.
Proof.
  unfold date_comparable. cbn.
  now destruct (c_resolution_date c1), (c_resolution_date c2).
Qed.

Lemma Forall_filter_keep {A : Type} (P : A -> Prop) (keep : A -> bool)
    (l : list A) :
  Forall P l -> Forall P (List.filter keep l).
Proof.
  induction 1 as [|x l Hx _ IH]; cbn; [constructor|].
  destruct (keep x); [now constructor | assumption].
Qed.

Lemma filter_filter_andb {A : Type} (f g : A -> bool) (l : list A) :
  List.filter g (List.filter f l) = List.filter (fun x => f x && g x) l.
Proof.
  induction l as [|x l IH]; cbn; [reflexivity|].
  destruct (f x); cbn; [destruct (g x)|]; now rewrite IH.
Qed.

(** C3, amended.  For criteria without a common key, where [search_in] is
    not split from [text]: each dictionary has a test on the market alone,
    the same for every list, such that on every list whose dates can be
    ordered with the bounds of the date ranges, the dictionary keeps the
    markets that satisfy its test, and filtering with the union is
    filtering with the first and then with the second dictionary, which
    keeps the markets that satisfy both tests. *)
Theorem filter_conjunction (c1 c2 : MarketFilterCriteria) :
  keys_disjoint c1 c2 -> scope_with_text c1 c2 ->
  exists keep1 keep2 : UnifiedMarket -> bool,
    forall R : list UnifiedMarket,
      dates_comparable c1 R -> dates_comparable c2 R ->
      filter_markets lower R (CriteriaDict c1) = Ok (List.filter keep1 R) /\
      filter_markets lower R (CriteriaDict c2) = Ok (List.filter keep2 R) /\
      filter_twice lower R c1 c2 =
        Ok (List.filter (fun m => keep1 m && keep2 m) R) /\
      filter_markets lower R (CriteriaDict (criteria_union c1 c2)) =
        filter_twice lower R c1 c2.
Proof.
  intros Hkeys Hscope.
  exists (verdict lower c1), (verdict lower c2). intros R H1 H2.
  assert (Htwice : filter_twice lower R c1 c2 =
                   Ok (List.filter
                         (fun m => verdict lower c1 m && verdict lower c2 m) R)).
  { unfold filter_twice. rewrite (filter_verdict _ _ H1). cbn [mbind result_bind].
    rewrite filter_verdict by now apply Forall_filter_keep.
    now rewrite filter_filter_andb. }
  split; [now apply filter_verdict|].
  split; [now apply filter_verdict|].
  split; [exact Htwice|].
  rewrite Htwice, filter_verdict.
  - f_equal. apply filter_ext. intros m. now apply verdict_union.
  - apply Forall_forall. intros m Hm.
    apply date_comparable_union;
      [exact (proj1 (Forall_forall _ _) H1 m Hm)
      |exact (proj1 (Forall_forall _ _) H2 m Hm)].
Qed.

End Filter.

Lemma date_constraint_rejects_absent_witness :
  filter_markets Sample.ascii_lower [Sample.trump; Sample.naive_dated]
    (CriteriaDict (Sample.before Sample.dec_2024)) = Ok [Sample.naive_dated] /\
  (forall m, resolution_date m = None ->
     market_passes Sample.ascii_lower (Sample.before Sample.dec_2024) m
     = Ok false) /\
  (forall m, In m [Sample.naive_dated] -> resolution_date m <> None).
Proof.
  split; [reflexivity|].
  apply (date_constraint_rejects_absent Sample.ascii_lower
           [Sample.trump; Sample.naive_dated] [Sample.naive_dated]
           (Sample.before Sample.dec_2024)
           {| dr_before := Some Sample.dec_2024; dr_after := None |});
    reflexivity.
Defined.

(** C3 fails as stated: [search_in] is a key of its own, and it only acts
    together with [text]; and a date comparison that raises is reached for
    other markets by the union than by the two filters in sequence. *)
Lemma filter_conjunction_counterexample :
  (keys_disjoint Sample.text_abc Sample.scope_description /\
   filter_markets Sample.ascii_lower [Sample.abc]
     (CriteriaDict (criteria_union Sample.text_abc Sample.scope_description))
     = Ok [] /\
   filter_twice Sample.ascii_lower [Sample.abc] Sample.text_abc
     Sample.scope_description = Ok [Sample.abc] /\
   filter_markets Sample.ascii_lower [Sample.abc]
     (CriteriaDict (criteria_union Sample.text_abc Sample.scope_description))
     <> filter_twice Sample.ascii_lower [Sample.abc] Sample.text_abc
          Sample.scope_description) /\
  (keys_disjoint Sample.price_yes_min (Sample.before Sample.dec_2024_utc) /\
   filter_markets Sample.ascii_lower [Sample.naive_dated]
     (CriteriaDict (criteria_union Sample.price_yes_min
                      (Sample.before Sample.dec_2024_utc)))
     = Raise (Exn TypeError naive_aware_msg) /\
   filter_twice Sample.ascii_lower [Sample.naive_dated] Sample.price_yes_min
     (Sample.before Sample.dec_2024_utc) = Ok []).
Proof.
  split; (split; [unfold keys_disjoint, key_disjoint; cbn; tauto|]).
  - split; [reflexivity|]. split; [reflexivity|]. discriminate.
  - split; reflexivity.
Qed.

Lemma filter_conjunction_witness :
  filter_markets Sample.ascii_lower Sample.records
    (CriteriaDict (criteria_union Sample.volume_min_40000
                     (title_text_criteria (lit "bitcoin"))))
  = filter_twice Sample.ascii_lower Sample.records Sample.volume_min_40000
      (title_text_criteria (lit "bitcoin")) /\
  filter_twice Sample.ascii_lower Sample.records Sample.volume_min_40000
    (title_text_criteria (lit "bitcoin")) = Ok [Sample.bitcoin].
Proof.
  split; [|reflexivity].
  destruct (filter_conjunction Sample.ascii_lower Sample.volume_min_40000
              (title_text_criteria (lit "bitcoin"))) as [k1 [k2 H]].
  - unfold keys_disjoint, key_disjoint; cbn; tauto.
  - unfold scope_with_text; cbn; tauto.
  - destruct (H Sample.records) as [_ [_ [_ Hunion]]].
    + now apply no_date_comparable.
    + now apply no_date_comparable.
    + exact Hunion.
Defined.

(** ** [ServerManager] *)

Section Supervisor.
Import ServerManager.

Lemma quiet_ret {A : Type} (a : A) : quiet (mret a : M A).
Proof. intros w r w' [= <- <-]. now split. Qed.

Lemma quiet_lift {A : Type} (x : result A) : quiet (lift x).
Proof. intros w r w' [= <- <-]. now split. Qed.

Lemma quiet_raise {A : Type} (cls : exn_class) (msg : str) :
  quiet (raise cls msg : M A).
Proof. intros w r w' [= <- <-]. now split. Qed.

Lemma quiet_bind {A B : Type} (m : M A) (k : A -> M B) :
  quiet m -> (forall a, quiet (k a)) -> quiet (m ≫= k).
Proof.
  intros Hm Hk w r w'. unfold mbind, M_bind.
  destruct (m w) as [[a|e] w1] eqn:E; intros H.
  - destruct (Hm _ _ _ E) as [<- <-]. exact (Hk a _ _ _ H).
  - injection H as <- <-. exact (Hm _ _ _ E).
Qed.

Lemma quiet_try {A : Type} (body : M A) (catches : exn -> bool)
    (handler : exn -> M A) :
  quiet body -> (forall e, quiet (handler e)) ->
  quiet (try_except body catches handler).
Proof.
  intros Hb Hh w r w'. unfold try_except.
  destruct (body w) as [[a|e] w1] eqn:E; intros H.
  - injection H as <- <-. exact (Hb _ _ _ E).
  - destruct (Hb _ _ _ E) as [<- <-].
    destruct (catches e); [exact (Hh e _ _ _ H)|].
    injection H as <- <-. now split.
Qed.

Lemma quiet_lock_exists : quiet lock_exists.
Proof.
  intros w r w'. unfold lock_exists.
  destruct (w_lock w) as [f|]; [destruct (lf_content f)|];
    intros [= <- <-]; now split.
Qed.

Lemma quiet_read_lock_json : quiet read_lock_json.
Proof.
  intros w r w'. unfold read_lock_json.
  destruct (w_lock w) as [f|]; [destruct (lf_content f)|];
    intros [= <- <-]; now split.
Qed.

Lemma quiet_unlink : quiet unlink.
Proof.
  intros w r w'. unfold unlink.
  destruct (w_lock w) as [f|];
    [destruct (lf_content f), (lf_removable f)|];
    intros [= <- <-]; now split.
Qed.

Lemma quiet_os_kill_0 (pid : pyval) : quiet (os_kill_0 pid).
Proof.
  intros w r w' H. unfold os_kill_0 in H.
  repeat case_match; injection H as <- <-; now split.
Qed.

Lemma quiet_check_health (self : t) (port : pyval) (timeout : nat) :
  quiet (_check_health self port timeout).
Proof.
  intros w r w'. unfold _check_health. intros [= <- <-]. now split.
Qed.

Lemma quiet_is_process_running (self : t) (pid : pyval) :
  quiet (_is_process_running self pid).
Proof.
  apply quiet_try; [|intros; apply quiet_ret].
  apply quiet_bind; [apply quiet_os_kill_0 | intros; apply quiet_ret].
Qed.

Lemma quiet_remove_stale_lock (self : t) : quiet (_remove_stale_lock self).
Proof. apply quiet_try; [apply quiet_unlink | intros; apply quiet_ret]. Qed.

(** The alive check never runs the launcher and never enters the polling
    loop. *)
Lemma quiet_is_server_alive (self : t) : quiet (is_server_alive self).
Proof.
  unfold is_server_alive.
  apply quiet_bind; [apply quiet_lock_exists|]. intros present.
  destruct (negb present); [apply quiet_ret|].
  apply quiet_try; [|intros; apply quiet_ret].
  apply quiet_bind; [apply quiet_read_lock_json|]. intros lock_data.
  apply quiet_bind; [apply quiet_lift|]. intros pid.
  apply quiet_bind; [apply quiet_lift|]. intros port.
  destruct (negb (truthy pid)); [apply quiet_ret|].
  apply quiet_bind; [apply quiet_is_process_running|]. intros running.
  destruct (negb running).
  - apply quiet_bind; [apply quiet_remove_stale_lock | intros; apply quiet_ret].
  - apply quiet_try; [apply quiet_check_health | intros; apply quiet_ret].
Qed.

(** C5.  When the alive check reports a live and healthy server, a call of
    [ensure_server_running] returns with the state the check left, without a
    run of the launcher and without an iteration of the polling loop; the
    same holds for a second call that follows it. *)
Theorem ensure_server_running_idempotent (self : t) (w w1 : world) :
  is_server_alive self w = (Ok true, w1) ->
  ensure_server_running self w = (Ok tt, w1) /\
  w_launches w1 = w_launches w /\ w_polls w1 = w_polls w /\
  forall w2, is_server_alive self w1 = (Ok true, w2) ->
    ensure_server_running self w1 = (Ok tt, w2) /\
    w_launches w2 = w_launches w /\ w_polls w2 = w_polls w.
Proof.
  assert (Hcall : forall u u', is_server_alive self u = (Ok true, u') ->
            ensure_server_running self u = (Ok tt, u')).
  { intros u u' H. unfold ensure_server_running, mbind, M_bind.
    now rewrite H. }
  intros H. destruct (quiet_is_server_alive self _ _ _ H) as [Hl Hp].
  repeat split; [now apply Hcall | assumption | assumption | | |];
    destruct (quiet_is_server_alive self _ _ _ H0) as [Hl2 Hp2];
    [now apply Hcall | congruence | congruence].
Qed.

Lemma ensure_server_running_idempotent_witness :
  ensure_server_running Sample.manager Sample.alive_world =
    (Ok tt, advance 5 Sample.alive_world) /\
  w_launches (advance 5 Sample.alive_world) = 0%nat /\
  w_polls (advance 5 Sample.alive_world) = 0%nat /\
  ensure_server_running Sample.manager (advance 5 Sample.alive_world) =
    (Ok tt, advance 5 (advance 5 Sample.alive_world)).
Proof.
  destruct (ensure_server_running_idempotent Sample.manager Sample.alive_world
              (advance 5 Sample.alive_world))
    as [H1 [H2 [H3 H4]]]; [reflexivity|].
  destruct (H4 (advance 5 (advance 5 Sample.alive_world))) as [H5 _];
    [reflexivity|].
  repeat split; assumption.
Defined.

(** *** Stale and malformed lock files *)

Lemma is_process_running_gone (self : t) (p : Z) (w : world) :
  (0 < p)%Z -> pid_in_range p = true -> w_procs w !! p = None ->
  _is_process_running self (PInt p) w = (Ok false, w).
Proof.
  intros Hpos Hr Hp.
  unfold _is_process_running, try_except, mbind, M_bind, os_kill_0, kill_target.
  rewrite Hr, (proj2 (Z.ltb_lt 0 p) Hpos), Hp. reflexivity.
Qed.

Lemma remove_stale_lock_spec (self : t) (w : world) (f : lock_file) :
  w_lock w = Some f ->
  _remove_stale_lock self w =
    (Ok tt,
     match lf_content f with
     | Unreachable _ => w
     | _ => if lf_removable f then set_lock None w else w
     end).
Proof.
  intros Hf. unfold _remove_stale_lock, try_except, unlink. rewrite Hf.
  now destruct (lf_content f), (lf_removable f).
Qed.

(** C6 fails as stated: a recorded pid of 0 is taken for a missing pid and
    the lock file stays; and a lock file that cannot be removed stays, the
    failure being ignored. *)
Lemma stale_lock_counterexample :
  (w_procs Sample.pid_zero_world !! 0%Z = None /\
   is_server_alive Sample.manager Sample.pid_zero_world =
     (Ok false, Sample.pid_zero_world) /\
   lock_exists Sample.pid_zero_world = (Ok true, Sample.pid_zero_world)) /\
  (w_procs Sample.protected_stale_world !! 999999999%Z = None /\
   is_server_alive Sample.manager Sample.protected_stale_world =
     (Ok false, Sample.protected_stale_world) /\
   lock_exists Sample.protected_stale_world =
     (Ok true, Sample.protected_stale_world)).
Proof.
  split; (split; [reflexivity | split; reflexivity]).
Qed.

(** C6, amended.  For a lock file that holds a JSON object whose [pid] is a
    positive integer, within the range of process ids, of no process in
    the process table: [is_server_alive] returns [False] and tries to remove
    the lock file; when the removal is permitted the lock file is gone and a
    following look finds none; when it is not, the state is unchanged. *)
Theorem stale_lock_reclaimed (self : t) (w : world) (f : lock_file)
    (d : gmap str pyval) (p : Z) :
  w_lock w = Some f ->
  lf_content f = Json (PDict d) ->
  d !! lit "pid" = Some (PInt p) ->
  (0 < p)%Z ->
  pid_in_range p = true ->
  w_procs w !! p = None ->
  exists w',
    is_server_alive self w = (Ok false, w') /\
    (lf_removable f = true ->
       w_lock w' = None /\ lock_exists w' = (Ok false, w')) /\
    (lf_removable f = false -> w' = w).
Proof.
  intros Hf Hc Hpid Hpos Hr Hp.
  exists (if lf_removable f then set_lock None w else w). split.
  - unfold is_server_alive, mbind, M_bind, lock_exists, try_except,
      read_lock_json, lift, py_get.
    rewrite Hf, Hc. cbn [negb]. rewrite Hf, Hc. cbn [negb]. rewrite Hpid.
    unfold truthy. rewrite (proj2 (Z.eqb_neq p 0)) by lia. cbn [negb].
    rewrite (is_process_running_gone self p w Hpos Hr Hp). cbn [negb].
    rewrite (remove_stale_lock_spec self w f Hf), Hc. reflexivity.
  - split; intros ->; [split|]; reflexivity.
Qed.

Lemma stale_lock_reclaimed_witness :
  exists w',
    is_server_alive Sample.manager Sample.stale_world = (Ok false, w') /\
    w_lock w' = None /\ lock_exists w' = (Ok false, w').
Proof.
  destruct (stale_lock_reclaimed Sample.manager Sample.stale_world
              (Sample.lock_of (Sample.lock_data 999999999))
              (<[lit "pid" := PInt 999999999]> (<[lit "port" := PInt 3847]> ∅))
              999999999) as [w' [H1 [H2 _]]].
  - reflexivity.
  - reflexivity.
  - reflexivity.
  - reflexivity.
  - reflexivity.
  - reflexivity.
  - exists w'. destruct (H2 eq_refl). repeat split; assumption.
Defined.

(** The states the handler of [is_server_alive] covers: a lock file that
    cannot be read, one that is not JSON, and a JSON object without [pid]
    (or with a [pid] that counts as false). *)
Lemma malformed_lock_tolerated (self : t) (w : world) (f : lock_file) :
  w_lock w = Some f ->
  (exists reason, lf_content f = Unreadable reason) \/
  (exists reason, lf_content f = NotJson reason) \/
  (exists d, lf_content f = Json (PDict d) /\
             truthy (match d !! lit "pid" with Some x => x | None => PNone end)
             = false) ->
  is_server_alive self w = (Ok false, w).
Proof.
  intros Hf Hc.
  unfold is_server_alive, mbind, M_bind, lock_exists, try_except,
    read_lock_json, lift, py_get.
  rewrite Hf.
  destruct Hc as [[r Hc]|[[r Hc]|[d [Hc Hpid]]]]; rewrite Hc; cbn [negb];
    rewrite Hf, Hc; [reflexivity|reflexivity|].
  cbn [negb]. now rewrite Hpid.
Qed.

(** A lock file that parses to a value other than an object makes
    [is_server_alive] raise [AttributeError] at [lock_data.get]. *)
Lemma non_object_lock_raises (self : t) (w : world) (f : lock_file) (v : pyval) :
  w_lock w = Some f -> lf_content f = Json v ->
  (forall d, v <> PDict d) ->
  is_server_alive self w =
    (Raise (Exn AttributeError
              (lit "'" ++ type_name v ++ (lit "' object has no attribute 'get'"))), w).
Proof.
  intros Hf Hc Hv.
  unfold is_server_alive, mbind, M_bind, lock_exists, try_except,
    read_lock_json, lift, py_get.
  rewrite Hf, Hc. cbn [negb]. rewrite Hf, Hc.
  destruct v; try reflexivity. now destruct (Hv d).
Qed.

(** C7, at the failing inputs: on the lock file [[]], which parses as JSON
    and has no [pid], [is_server_alive] raises [AttributeError]; on a lock
    file whose bytes are not text it raises the [UnicodeDecodeError] of
    [read_text]. *)
Theorem malformed_lock_raises :
  is_server_alive Sample.manager Sample.list_lock_world =
    (Raise (Exn AttributeError (lit "'list' object has no attribute 'get'")),
     Sample.list_lock_world) /\
  is_server_alive Sample.manager Sample.binary_lock_world =
    (Raise (Exn UnicodeDecodeError
              (lit "'utf-8' codec can't decode byte 0xff in position 0: invalid start byte")),
     Sample.binary_lock_world).
Proof. split; reflexivity. Qed.

(** *** The launcher *)

Lemma str_or_spec (x y : str) :
  str_or x y = if str_eqb x (lit "") then y else x.
Proof. now destruct x. Qed.

(** C8 fails as stated: when the launcher wrote to both streams, the message
    shows the text of stderr and not the text of stdout. *)
Lemma launcher_failure_counterexample :
  rr_outcome (w_run Sample.no_lock_world
                (launcher_cmd Sample.no_lock_world
                   (lit "/usr/local/bin/pmxt-ensure-server")))
    = Completed 1 (lit "listening failed") (lit "EADDRINUSE") /\
  fst (ensure_server_running Sample.manager Sample.no_lock_world) =
    Raise (Exn Exception
             (lit "Failed to start server: Failed to start server: EADDRINUSE")) /\
  str_in (lit "listening failed")
    (lit "Failed to start server: Failed to start server: EADDRINUSE") = false.
Proof. repeat split. Qed.

(** C8, amended.  When the server is not alive, the launcher is found and
    its run completes with a return code other than 0,
    [ensure_server_running] raises an exception whose message contains the
    text of stderr when that is not empty, and the text of stdout when stderr
    is empty; the polling loop is not entered. *)
Theorem launcher_failure_message (self : t) (w w1 : world)
    (launcher : str) (returncode : Z) (stdout stderr : str) :
  is_server_alive self w = (Ok false, w1) ->
  find_launcher w1 = Some launcher ->
  launcher <> [] ->
  rr_outcome (w_run w1 (launcher_cmd w1 launcher))
    = Completed returncode stdout stderr ->
  returncode <> 0%Z ->
  exists msg w2,
    ensure_server_running self w = (Raise (Exn Exception msg), w2) /\
    msg = (lit "Failed to start server: Failed to start server: ") ++
          (if str_eqb stderr (lit "") then stdout else stderr) /\
    str_in (if str_eqb stderr (lit "") then stdout else stderr) msg = true /\
    w_launches w2 = S (w_launches w) /\ w_polls w2 = w_polls w.
Proof.
  intros Halive Hfind Hne Hrun Hrc.
  destruct (quiet_is_server_alive self _ _ _ Halive) as [Hl Hp].
  exists (lit "Failed to start server: Failed to start server: " ++
          (if str_eqb stderr (lit "") then stdout else stderr)),
    (after_run (w_run w1 (launcher_cmd w1 launcher)) w1).
  split; [|split; [reflexivity|split; [|split]]].
  - unfold ensure_server_running, mbind, M_bind. rewrite Halive.
    unfold _start_server_via_launcher. rewrite Hfind.
    destruct launcher as [|c launcher]; [congruence|].
    unfold try_except, mbind, M_bind, subprocess_run. rewrite Hrun.
    rewrite (proj2 (Z.eqb_neq returncode 0) Hrc). cbn.
    now rewrite str_or_spec.
  - apply str_in_iff.
    exists (lit "Failed to start server: Failed to start server: "), (lit "").
    now rewrite app_nil_r.
  - cbn. now rewrite Hl.
  - cbn. now rewrite Hp.
Qed.

Lemma launcher_failure_message_witness :
  exists msg w2,
    ensure_server_running Sample.manager Sample.no_lock_world
      = (Raise (Exn Exception msg), w2) /\
    msg = (lit "Failed to start server: Failed to start server: EADDRINUSE") /\
    w_launches w2 = 1%nat /\ w_polls w2 = 0%nat.
Proof.
  destruct (launcher_failure_message Sample.manager Sample.no_lock_world
              Sample.no_lock_world (lit "/usr/local/bin/pmxt-ensure-server")
              1 (lit "listening failed") (lit "EADDRINUSE"))
    as [msg [w2 [H1 [H2 [_ [H3 H4]]]]]].
  - reflexivity.
  - reflexivity.
  - discriminate.
  - reflexivity.
  - discriminate.
  - exists msg, w2. repeat split; assumption.
Defined.

(** *** The polling loop *)

Lemma wait_loop_succ (fuel : nat) (self : t) (start_time : nat) (w : world) :
  wait_loop (S fuel) self start_time w =
  if (w_clock w - start_time <? HEALTH_CHECK_TIMEOUT * 1000)%nat then
    let '(healthy, w1) := _check_health self (PInt (_port self)) 2 (count_poll w) in
    match healthy with
    | Ok true => (Ok tt, w1)
    | _ =>
        wait_loop fuel self start_time
          (advance (HEALTH_CHECK_INTERVAL_MS + w_oversleep w1 (w_clock w1)) w1)
    end
  else raise Exception health_timeout_msg w.
Proof.
  cbn [wait_loop]. destruct (_ <? _)%nat; [|reflexivity].
  unfold mbind, M_bind, try_except, _check_health, sleep_interval.
  now destruct (w_health _ _ _ _).
Qed.

Lemma check_health_clock (self : t) (port : pyval) (timeout : nat)
    (w w1 : world) (r : result bool) :
  _check_health self port timeout w = (r, w1) -> (w_clock w <= w_clock w1)%nat.
Proof.
  unfold _check_health. intros [= <- <-]. cbn. lia.
Qed.

(** Once the time left is covered by the fuel, more fuel changes nothing:
    the loop of [_wait_for_health] ends by itself. *)
Lemma wait_loop_fuel (self : t) (start_time : nat) (fuel extra : nat) (w : world) :
  (start_time <= w_clock w)%nat ->
  (HEALTH_CHECK_TIMEOUT * 1000 <
     w_clock w - start_time + fuel * HEALTH_CHECK_INTERVAL_MS)%nat ->
  wait_loop (fuel + extra) self start_time w = wait_loop fuel self start_time w.
Proof.
  revert w. induction fuel as [|fuel IH]; intros w Hs Hb.
  - destruct extra as [|extra]; [reflexivity|].
    cbn [Nat.add]. rewrite wait_loop_succ.
    destruct (Nat.ltb_spec (w_clock w - start_time)
                (HEALTH_CHECK_TIMEOUT * 1000)) as [H|H]; [|reflexivity].
    unfold HEALTH_CHECK_INTERVAL_MS, HEALTH_CHECK_TIMEOUT in *. lia.
  - cbn [Nat.add]. rewrite !wait_loop_succ.
    destruct (_ <? _)%nat; [|reflexivity].
    destruct (_check_health self (PInt (_port self)) 2 (count_poll w))
      as [healthy w1] eqn:E.
    apply check_health_clock in E. cbn [w_clock count_poll] in E.
    unfold HEALTH_CHECK_INTERVAL_MS, HEALTH_CHECK_TIMEOUT in *.
    destruct healthy as [[|]|e]; [reflexivity| |];
      apply IH; cbn [w_clock advance]; lia.
Qed.

(** [_wait_for_health] returns or raises within [wait_fuel] iterations. *)
Lemma wait_for_health_total (self : t) (w : world) (extra : nat) :
  wait_loop (wait_fuel + extra) self (w_clock w) w = _wait_for_health self w.
Proof.
  unfold _wait_for_health. apply wait_loop_fuel; [lia|].
  change wait_fuel with 101%nat.
  unfold HEALTH_CHECK_TIMEOUT, HEALTH_CHECK_INTERVAL_MS. lia.
Qed.

(** *** The accessors *)

Lemma get_server_info_read_only (self : t) : read_only (get_server_info self).
Proof.
  intros w r w'.
  unfold get_server_info, mbind, M_bind, lock_exists, try_except, read_lock_json.
  destruct (w_lock w) as [f|] eqn:Hf; cbn [negb].
  - destruct (lf_content f) eqn:Hc; cbn [negb]; try rewrite Hf, Hc;
      intros [= <- <-]; now rewrite Hf.
  - intros [= <- <-]. now rewrite Hf.
Qed.

(** [get_server_info] returns [None] without a lock file and with a lock
    file that cannot be read or parsed. *)
Lemma get_server_info_absent (self : t) (w : world) :
  w_lock w = None \/ (exists f, w_lock w = Some f /\ malformed f) ->
  get_server_info self w = (Ok PNone, w).
Proof.
  unfold get_server_info, mbind, M_bind, lock_exists, try_except, read_lock_json.
  intros [H|[f [H [reason [Hc|[Hc|Hc]]]]]]; rewrite H; try rewrite Hc;
    cbn [negb]; try reflexivity; now rewrite H, Hc.
Qed.

(** The body of the [try] in [Exchange.__init__] never completes. *)
Lemma discover_port_raises (self : t) (w : world) :
  exists e w',
    Exchange.discover_port self true w =
      (Raise (Exn Exception (Exchange.start_failure_msg e)), w').
Proof.
  unfold Exchange.discover_port, try_except, mbind, M_bind.
  destruct (ensure_server_running self w) as [[[]|e] w'].
  - now eexists _, w'.
  - now exists e, w'.
Qed.

(** C9, at the failing input: [get_server_info] returns [None] without a
    lock file and leaves the state as it is, but [ServerManager] has no
    method [get_running_port]: the call raises [AttributeError], and the
    block of [Exchange.__init__] that makes it ends in the exception
    [Failed to start PMXT server]. *)
Theorem get_running_port_undefined :
  get_server_info Sample.manager Sample.no_lock_world =
    (Ok PNone, Sample.no_lock_world) /\
  call_method Sample.manager (lit "get_running_port") Sample.no_lock_world =
    (Raise (Exn AttributeError
              (lit "'ServerManager' object has no attribute 'get_running_port'")),
     Sample.no_lock_world) /\
  (forall self w, lookup_method (lit "get_running_port") methods = None /\
     exists e w',
       Exchange.discover_port self true w =
         (Raise (Exn Exception (Exchange.start_failure_msg e)), w')).
Proof.
  split; [reflexivity|]. split; [reflexivity|].
  intros self w. split; [reflexivity | apply discover_port_raises].
Qed.

End Supervisor.

(** * Further properties *)

(** ** [filter_markets]: selection, repetition, order of application *)

Section FilterAlgebra.

Variable lower : str -> str.

Lemma sublist_List_filter {A : Type} (f : A -> bool) (l : list A) :
  sublist (List.filter f l) l.
Proof.
  induction l as [|x l IH]; cbn; [constructor|].
  destruct (f x); now constructor.
Qed.

Lemma filter_loop_sublist (c : MarketFilterCriteria) (R res : list UnifiedMarket) :
  filter_loop lower c R = Ok res -> sublist res R.
Proof.
  revert res. induction R as [|x R IH]; intros res H.
  - injection H as <-. constructor.
  - cbn [filter_loop] in H.
    destruct (market_passes lower c x) as [keep|e]; [|discriminate].
    destruct (filter_loop lower c R) as [results|e]; [|discriminate].
    cbn in H. injection H as <-.
    destruct keep; constructor; now apply IH.
Qed.

(** X1.  Whatever the criteria (string, dictionary or predicate), a list
    that [filter_markets] returns is the input with some markets left out:
    the order is kept and no market is added or repeated. *)
Theorem filter_markets_selects (R res : list UnifiedMarket) (criteria : Criteria) :
  filter_markets lower R criteria = Ok res -> sublist res R.
Proof.
  destruct criteria as [s|params|f]; cbn [filter_markets].
  - intros [= <-]. apply sublist_List_filter.
  - apply filter_loop_sublist.
  - intros [= <-]. apply sublist_List_filter.
Qed.

Lemma List_filter_twice {A : Type} (f : A -> bool) (l : list A) :
  List.filter f (List.filter f l) = List.filter f l.
Proof.
  induction l as [|x l IH]; cbn; [reflexivity|].
  destruct (f x) eqn:E; cbn; [rewrite E|]; now rewrite IH.
Qed.

Lemma List_filter_all {A : Type} (l : list A) :
  List.filter (fun _ => true) l = l.
Proof. induction l as [|x l IH]; cbn; [reflexivity | now rewrite IH]. Qed.

(** X2.  Filtering again with the same criteria changes nothing: a list
    that [filter_markets] returned is returned as it is, also when the first
    call had to compare dates. *)
Theorem filter_markets_idempotent (R res : list UnifiedMarket)
    (criteria : Criteria) :
  filter_markets lower R criteria = Ok res -> filter_markets lower res criteria = Ok res.
Proof.
  destruct criteria as [s|params|f]; cbn [filter_markets].
  - intros [= <-]. now rewrite List_filter_twice.
  - intros H. rewrite (filter_loop_pure lower params (fun _ => true)).
    + now rewrite List_filter_all.
    + apply List.Forall_forall. intros m Hm.
      now destruct (filter_loop_In lower _ _ _ H m Hm).
  - intros [= <-]. now rewrite List_filter_twice.
Qed.

(** X3.  When the dates can be ordered with the bounds, two criteria
    dictionaries can be applied in either order: the result is the same
    list. *)
Theorem filter_twice_commutes (R : list UnifiedMarket)
    (c1 c2 : MarketFilterCriteria) :
  dates_comparable c1 R -> dates_comparable c2 R ->
  filter_twice lower R c1 c2 = filter_twice lower R c2 c1 /\
  exists res, filter_twice lower R c1 c2 = Ok res.
Proof.
  intros H1 H2.
  assert (Htwice : forall a b, dates_comparable a R -> dates_comparable b R ->
            filter_twice lower R a b =
            Ok (List.filter (fun m => verdict lower a m && verdict lower b m) R)).
  { intros a b Ha Hb. unfold filter_twice.
    rewrite (filter_verdict lower _ _ Ha). cbn [mbind result_bind].
    rewrite filter_verdict by now apply Forall_filter_keep.
    now rewrite filter_filter_andb. }
  rewrite (Htwice c1 c2 H1 H2), (Htwice c2 c1 H2 H1). split; [|eauto].
  f_equal. apply filter_ext. intros m. apply andb_comm.
Qed.

(** X4.  The empty dictionary keeps every market, and so does a dictionary
    whose only key is [search_in], or [tags] with the empty list, or a price
    filter without the [outcome] key, whatever its [min] and [max]. *)
Theorem filter_markets_vacuous (R : list UnifiedMarket)
    (fields : list SearchField) (f : PriceFilter) :
  pf_outcome f = None ->
  filter_markets lower R (CriteriaDict no_criteria) = Ok R /\
  filter_markets lower R (CriteriaDict
    {| c_text := None; c_search_in := Some fields; c_volume_24h := None;
       c_volume := None; c_liquidity := None; c_open_interest := None;
       c_resolution_date := None; c_category := None; c_tags := None;
       c_price := None; c_price_change_24h := None |}) = Ok R /\
  filter_markets lower R (CriteriaDict (tags_criteria [])) = Ok R /\
  filter_markets lower R (CriteriaDict (price_criteria f)) = Ok R /\
  filter_markets lower R (CriteriaDict (price_change_criteria f)) = Ok R.
Proof.
  intros Hf.
  assert (Hall : forall c, c_resolution_date c = None ->
            (forall m, verdict lower c m = true) ->
            filter_markets lower R (CriteriaDict c) = Ok R).
  { intros c Hd Hv. rewrite filter_verdict by now apply no_date_comparable.
    rewrite (filter_ext _ (fun _ => true) Hv). now rewrite List_filter_all. }
  repeat split; apply Hall; try reflexivity; intros m;
    unfold verdict, before_date_ok, after_date_ok, date_within, price_ok,
      price_change_24h_ok; cbn; now rewrite ?Hf.
Qed.

End FilterAlgebra.

Lemma filter_markets_selects_witness :
  sublist [Sample.trump; Sample.bitcoin] Sample.records.
Proof.
  apply (filter_markets_selects Sample.ascii_lower Sample.records [Sample.trump; Sample.bitcoin]
           (CriteriaDict Sample.volume_min_40000)).
  reflexivity.
Defined.

Lemma filter_markets_idempotent_witness :
  filter_markets Sample.ascii_lower [Sample.naive_dated]
    (CriteriaDict (Sample.before Sample.dec_2024)) = Ok [Sample.naive_dated].
Proof.
  apply (filter_markets_idempotent Sample.ascii_lower [Sample.trump; Sample.naive_dated]).
  reflexivity.
Defined.

Lemma filter_twice_commutes_witness :
  filter_twice Sample.ascii_lower Sample.records Sample.volume_min_40000
    (title_text_criteria (lit "bitcoin")) =
  filter_twice Sample.ascii_lower Sample.records (title_text_criteria (lit "bitcoin"))
    Sample.volume_min_40000.
Proof.
  apply (filter_twice_commutes Sample.ascii_lower Sample.records Sample.volume_min_40000
           (title_text_criteria (lit "bitcoin")));
    now apply no_date_comparable.
Defined.

Lemma filter_markets_vacuous_witness :
  filter_markets Sample.ascii_lower Sample.records
    (CriteriaDict (price_criteria
       {| pf_outcome := None; pf_min := Some 1%Q; pf_max := Some 0%Q |}))
  = Ok Sample.records.
Proof.
  apply (filter_markets_vacuous Sample.ascii_lower Sample.records []
           {| pf_outcome := None; pf_min := Some 1%Q; pf_max := Some 0%Q |}).
  reflexivity.
Defined.


(** ** [filter_markets]: the single constraints *)

Section Constraints.

Variable lower : str -> str.

(** A dictionary without a date range keeps the markets on which its
    constraints hold. *)
Lemma filter_by_verdict (c : MarketFilterCriteria) (R : list UnifiedMarket) :
  c_resolution_date c = None ->
  filter_markets lower R (CriteriaDict c) = Ok (List.filter (verdict lower c) R).
Proof. intros H. apply filter_verdict. now apply no_date_comparable. Qed.

(** X5.  The category constraint is an exact, case-sensitive comparison: it
    keeps the markets whose category is the requested string, and drops the
    markets without a category. *)
Theorem category_filter_exact (R : list UnifiedMarket) (cat : str) :
  exists keep,
    (forall m, keep m = true <-> category m = Some cat) /\
    filter_markets lower R (CriteriaDict (category_criteria cat)) =
      Ok (List.filter keep R).
Proof.
  exists (verdict lower (category_criteria cat)). split.
  - intros m. unfold verdict, before_date_ok, after_date_ok, date_within,
      category_ok, opt_string_eqb. cbn. rewrite !andb_true_r.
    destruct (category m) as [s|]; [|split; discriminate].
    rewrite str_eqb_eq. split; congruence.
  - now apply filter_by_verdict.
Qed.

Lemma tags_ok_iff (query_tags : list str) (m : UnifiedMarket) :
  tags_ok lower (tags_criteria query_tags) m = true <->
  query_tags = [] \/ shares_tag lower query_tags m.
Proof.
  unfold tags_ok, shares_tag. cbn [c_tags tags_criteria].
  destruct query_tags as [|q qs].
  - split; [now left | reflexivity].
  - destruct (tags m) as [[|t ts]|].
    + split; [discriminate|]. intros [?|(q' & ts' & t' & _ & [= <-] & [] & _)].
      discriminate.
    + rewrite existsb_exists. split.
      * intros (x & Hx & Hex). right.
        apply in_map_iff in Hx as (q' & <- & Hq').
        apply existsb_exists in Hex as (y & Hy & Heq).
        apply in_map_iff in Hy as (t' & <- & Ht').
        apply str_eqb_eq in Heq. now exists q', (t :: ts), t'.
      * intros [?|(q' & ts' & t' & Hq' & [= <-] & Ht' & Heq)]; [discriminate|].
        exists (lower q'). split; [now apply in_map|].
        apply existsb_exists. exists (lower t').
        split; [now apply in_map | now apply str_eqb_eq].
    + split; [discriminate|]. intros [?|(q' & ts' & t' & _ & ? & _)];
        discriminate.
Qed.

(** X6.  The tags constraint keeps a market when one of its tags equals one
    of the requested tags up to case; a market without tags is dropped. *)
Theorem tags_filter_any (R : list UnifiedMarket) (q : str) (qs : list str) :
  exists keep,
    (forall m, keep m = true <-> shares_tag lower (q :: qs) m) /\
    filter_markets lower R (CriteriaDict (tags_criteria (q :: qs))) =
      Ok (List.filter keep R).
Proof.
  exists (verdict lower (tags_criteria (q :: qs))). split.
  - intros m.
    assert (E : verdict lower (tags_criteria (q :: qs)) m =
                tags_ok lower (tags_criteria (q :: qs)) m).
    { unfold verdict, before_date_ok, after_date_ok, date_within. cbn.
      now rewrite !andb_true_r. }
    rewrite E, tags_ok_iff. split; [intros [?|?]; [discriminate|assumption]|].
    now right.
  - now apply filter_by_verdict.
Qed.

Lemma range_keeps_iff (f : MinMax) (val : Q) :
  negb (range_rejects f val) = true <-> ~ outside f val.
Proof.
  rewrite negb_true_iff, <- not_true_iff_false. now rewrite range_rejects_iff.
Qed.

(** X7.  A price filter with an [outcome] key keeps the markets that have
    this outcome with a price inside the range, bounds included; a market
    without the outcome is dropped.  The 24-hour change filter also drops a
    market whose outcome has no recorded change. *)
Theorem price_filter_outcome (R : list UnifiedMarket) (key : OutcomeType)
    (lo hi : option Q) :
  (exists keep,
     (forall m, keep m = true <->
        exists o, getattr_outcome m key = Some o /\
                  ~ outside {| mm_min := lo; mm_max := hi |} (price o)) /\
     filter_markets lower R (CriteriaDict (price_criteria
        {| pf_outcome := Some key; pf_min := lo; pf_max := hi |})) =
       Ok (List.filter keep R)) /\
  (exists keep,
     (forall m, keep m = true <->
        exists o change, getattr_outcome m key = Some o /\
                  price_change_24h o = Some change /\
                  ~ outside {| mm_min := lo; mm_max := hi |} change) /\
     filter_markets lower R (CriteriaDict (price_change_criteria
        {| pf_outcome := Some key; pf_min := lo; pf_max := hi |})) =
       Ok (List.filter keep R)).
Proof.
  split.
  - exists (verdict lower (price_criteria
              {| pf_outcome := Some key; pf_min := lo; pf_max := hi |})).
    split; [|now apply filter_by_verdict].
    intros m. unfold verdict, before_date_ok, after_date_ok, date_within,
      price_ok, price_change_24h_ok. cbn. rewrite andb_true_r.
    destruct (getattr_outcome m key) as [o|].
    + rewrite range_keeps_iff. split; [intros H; now exists o|].
      now intros (o' & [= <-] & H).
    + split; [discriminate | now intros (o' & ? & _)].
  - exists (verdict lower (price_change_criteria
              {| pf_outcome := Some key; pf_min := lo; pf_max := hi |})).
    split; [|now apply filter_by_verdict].
    intros m. unfold verdict, before_date_ok, after_date_ok, date_within,
      price_ok, price_change_24h_ok. cbn.
    destruct (getattr_outcome m key) as [o|].
    + destruct (price_change_24h o) as [change|] eqn:E.
      * rewrite range_keeps_iff. split; [intros H; now exists o, change|].
        intros (o' & ch & [= <-] & Hc & H). congruence.
      * split; [discriminate|]. intros (o' & ch & [= <-] & Hc & _). congruence.
    + split; [discriminate | now intros (o' & ch & ? & _)].
Qed.

Lemma date_within_iff (f : DateRange) (m : UnifiedMarket) :
  date_within (date_criteria f) m = true <->
  exists val, resolution_date m = Some val /\ strictly_within f val.
Proof.
  unfold date_within, strictly_within. cbn [c_resolution_date date_criteria].
  destruct (resolution_date m) as [val|].
  - rewrite andb_true_iff. split.
    + intros [Hb Ha]. exists val. split; [reflexivity|]. split.
      * intros b Eb. rewrite Eb in Hb.
        apply negb_true_iff, Z.leb_gt in Hb. exact Hb.
      * intros a Ea. rewrite Ea in Ha.
        apply negb_true_iff, Z.leb_gt in Ha. exact Ha.
    + intros (val' & [= <-] & Hb & Ha). split.
      * destruct (dr_before f) as [b|]; [|reflexivity].
        apply negb_true_iff, Z.leb_gt. now apply Hb.
      * destruct (dr_after f) as [a|]; [|reflexivity].
        apply negb_true_iff, Z.leb_gt. now apply Ha.
  - split; [discriminate | now intros (val & ? & _)].
Qed.

(** X8.  When the dates can be ordered with the bounds, the date range
    keeps the markets that have a resolution date strictly after [after]
    and strictly before [before]: a date equal to a bound is dropped. *)
Theorem date_filter_strict (R : list UnifiedMarket) (f : DateRange) :
  dates_comparable (date_criteria f) R ->
  exists keep,
    (forall m, keep m = true <->
       exists val, resolution_date m = Some val /\ strictly_within f val) /\
    filter_markets lower R (CriteriaDict (date_criteria f)) = Ok (List.filter keep R).
Proof.
  intros H. exists (verdict lower (date_criteria f)). split.
  - intros m. rewrite <- date_within_iff.
    unfold verdict, before_date_ok, after_date_ok. cbn.
    now rewrite andb_true_r.
  - now apply filter_verdict.
Qed.

Lemma date_ok_raises (c : MarketFilterCriteria) (m : UnifiedMarket) (e : exn) :
  date_ok c m = Raise e -> e = Exn TypeError naive_aware_msg.
Proof.
  unfold date_ok, dt_ge, dt_le, mbind, result_bind.
  intros H. repeat case_match; congruence.
Qed.

Lemma market_passes_raises (c : MarketFilterCriteria) (m : UnifiedMarket)
    (e : exn) :
  market_passes lower c m = Raise e -> e = Exn TypeError naive_aware_msg.
Proof.
  rewrite market_passes_chain.
  destruct (before_date_ok lower c m); [|discriminate].
  destruct (date_ok c m) as [b|e'] eqn:E; cbn; [discriminate|].
  intros [= <-]. exact (date_ok_raises _ _ _ E).
Qed.

Lemma filter_loop_raises (c : MarketFilterCriteria) (R : list UnifiedMarket)
    (m : UnifiedMarket) (e : exn) :
  In m R -> market_passes lower c m = Raise e ->
  filter_loop lower c R = Raise (Exn TypeError naive_aware_msg).
Proof.
  intros Hin Hm. induction R as [|x R IH]; [destruct Hin|].
  cbn [filter_loop].
  destruct (market_passes lower c x) as [keep|e'] eqn:Hx.
  - destruct Hin as [->|Hin]; [congruence|].
    cbn. now rewrite (IH Hin).
  - cbn. now rewrite (market_passes_raises _ _ _ Hx).
Qed.

(** X9.  When a market of the list has a resolution date that carries a
    time zone and the [before] bound does not (or the reverse), filtering by
    the date range raises [TypeError] and returns no list. *)
Theorem date_filter_mixed_zones (R : list UnifiedMarket) (f : DateRange)
    (m : UnifiedMarket) (val b : datetime) :
  In m R -> resolution_date m = Some val -> dr_before f = Some b ->
  dt_aware val <> dt_aware b ->
  filter_markets lower R (CriteriaDict (date_criteria f)) =
    Raise (Exn TypeError naive_aware_msg).
Proof.
  intros Hin Hval Hb Hne. cbn [filter_markets].
  apply (filter_loop_raises _ _ m (Exn TypeError naive_aware_msg) Hin).
  rewrite market_passes_chain.
  unfold before_date_ok, date_ok, dt_ge. cbn. rewrite Hval, Hb.
  destruct (dt_aware val), (dt_aware b); cbn; congruence.
Qed.

End Constraints.

Lemma date_filter_strict_witness :
  exists keep,
    (forall m, keep m = true <->
       exists val, resolution_date m = Some val /\
         strictly_within
           {| dr_before := Some (Datetime 1730764800000000 false);
              dr_after := None |} val) /\
    filter_markets Sample.ascii_lower [Sample.trump; Sample.naive_dated]
      (CriteriaDict (date_criteria
         {| dr_before := Some (Datetime 1730764800000000 false);
            dr_after := None |}))
    = Ok (List.filter keep [Sample.trump; Sample.naive_dated]).
Proof.
  apply (date_filter_strict Sample.ascii_lower [Sample.trump; Sample.naive_dated]
           {| dr_before := Some (Datetime 1730764800000000 false);
              dr_after := None |}).
  repeat constructor.
Defined.

Lemma date_filter_mixed_zones_witness :
  filter_markets Sample.ascii_lower [Sample.trump; Sample.naive_dated]
    (CriteriaDict (date_criteria
       {| dr_before := Some Sample.dec_2024_utc; dr_after := None |}))
  = Raise (Exn TypeError naive_aware_msg).
Proof.
  apply (date_filter_mixed_zones Sample.ascii_lower _ _ Sample.naive_dated
           (Datetime 1730764800000000 false) Sample.dec_2024_utc).
  - right. left. reflexivity.
  - reflexivity.
  - reflexivity.
  - discriminate.
Defined.


(** ** [match] and the text search of [filter_markets] *)

Section MatchAndFilter.

Variable lower : str -> str.

Lemma scan_fields_existsb (lq : str) (m : UnifiedMarket)
    (fields : list SearchField) :
  scan_fields lower lq m fields = existsb (field_hit lower lq m) fields.
Proof.
  induction fields as [|f fields IH]; [reflexivity|].
  cbn [scan_fields existsb]. now destruct (field_hit lower lq m f).
Qed.

(** The loop over [search_in] in [match] and the [if]/[elif] chain of
    [filter_markets] make the same test. *)
Lemma scan_fields_text_match (lq : str) (m : UnifiedMarket)
    (fields : list SearchField) :
  scan_fields lower lq m fields = text_match lower lq fields m.
Proof.
  rewrite scan_fields_existsb. unfold text_match, in_search.
  induction fields as [|f fields IH]; [reflexivity|].
  cbn [existsb]. rewrite IH. clear IH.
  generalize (existsb (SearchField_eqb title_field) fields),
    (existsb (SearchField_eqb description_field) fields),
    (existsb (SearchField_eqb category_field) fields),
    (existsb (SearchField_eqb tags_field) fields),
    (existsb (SearchField_eqb outcomes_field) fields).
  intros i1 i2 i3 i4 i5.
  destruct f; cbn [field_hit SearchField_eqb orb];
    generalize (str_truthy (title m)), (str_in lq (lower (title m))),
      (opt_str_hit lower lq (description m)), (opt_str_hit lower lq (category m)),
      (tags_hit lower lq (tags m)), (outcomes_hit lower lq (outcomes m));
    intros h0 h1 h2 h3 h4 h5;
    destruct i1, i2, i3, i4, i5, h0, h1, h2, h3, h4, h5; reflexivity.
Qed.

Lemma text_match_iff (q : str) (fields : list SearchField) (m : UnifiedMarket) :
  text_match lower (lower q) fields m = true <-> hits_some_field lower q fields m.
Proof.
  rewrite <- scan_fields_text_match, scan_fields_existsb, existsb_exists.
  reflexivity.
Qed.

Lemma collect_matches_filter (lq : str) (fields : list SearchField)
    (l : list UnifiedMarket) :
  collect_matches lower lq fields l = List.filter (text_match lower lq fields) l.
Proof.
  induction l as [|m l IH]; [reflexivity|].
  cbn [collect_matches List.filter].
  rewrite scan_fields_text_match, IH. reflexivity.
Qed.

Lemma verdict_text (q : str) (fields : list SearchField) (m : UnifiedMarket) :
  verdict lower (text_criteria q fields) m = text_match lower (lower q) fields m.
Proof.
  unfold verdict, before_date_ok, after_date_ok, date_within, text_ok. cbn.
  now rewrite !andb_true_r.
Qed.

(** X10.  For every list of fields, [match] and the text search of
    [filter_markets] select the same markets, those that have the text,
    up to case, in one of the fields, whatever the order of the fields; and
    [match] returns the market when this selection has one element, raises
    the first [ValueError] when it is empty and the second when it has more
    elements. *)
Theorem match_agrees_with_filter (self : list UnifiedMarket) (query : str)
    (fields : list SearchField) :
  exists matches,
    filter_markets lower self (CriteriaDict (text_criteria query fields)) = Ok matches /\
    (forall m, In m matches <-> In m self /\ hits_some_field lower query fields m) /\
    match_ lower self query (Some fields) =
      match matches with
      | [] => Raise (Exn ValueError (no_match_msg query))
      | [m] => Ok m
      | _ => Raise (Exn ValueError (multiple_match_msg query matches))
      end.
Proof.
  exists (List.filter (text_match lower (lower query) fields) self).
  split; [|split].
  - rewrite (filter_by_verdict lower) by reflexivity. f_equal.
    apply filter_ext. intros m. apply verdict_text.
  - intros m. rewrite filter_In, text_match_iff. reflexivity.
  - unfold match_. rewrite collect_matches_filter.
    destruct (List.filter (text_match lower (lower query) fields) self)
      as [|a [|b rest]]; reflexivity.
Qed.

(** X11.  With an empty list of fields nothing matches: [match] raises the
    [ValueError] of no match on every list, and the text search of
    [filter_markets] returns the empty list; and on the empty list [match]
    raises the same error for every list of fields. *)
Theorem empty_scope_matches_nothing (self : list UnifiedMarket)
    (query : str) (fields : option (list SearchField)) :
  match_ lower self query (Some []) = Raise (Exn ValueError (no_match_msg query)) /\
  filter_markets lower self (CriteriaDict (text_criteria query [])) = Ok [] /\
  match_ lower [] query fields = Raise (Exn ValueError (no_match_msg query)).
Proof.
  split; [|split].
  - unfold match_. rewrite collect_matches_filter.
    assert (E : List.filter (text_match lower (lower query) []) self = []).
    { induction self as [|m l IH]; [reflexivity | exact IH]. }
    now rewrite E.
  - rewrite (filter_by_verdict lower) by reflexivity.
    induction self as [|m l IH]; [reflexivity|].
    cbn [List.filter]. rewrite verdict_text. exact IH.
  - now destruct fields.
Qed.

(** The selection of [match] on the fields [fields]. *)
Lemma match_selection (self : list UnifiedMarket) (query : str)
    (fields : list SearchField) (matches : list UnifiedMarket) :
  filter_markets lower self (CriteriaDict (text_criteria query fields))
    = Ok matches ->
  collect_matches lower (lower query) fields self = matches.
Proof.
  rewrite (filter_by_verdict lower) by reflexivity. intros [= <-].
  rewrite collect_matches_filter. apply filter_ext.
  intros m. symmetry. apply verdict_text.
Qed.

Lemma numbered_titles_lookup (ms : list UnifiedMarket) (i : nat)
    (m : UnifiedMarket) :
  ms !! i = Some m ->
  numbered_titles ms !! i =
    Some (str_of_nat (i + 1) ++ lit ". " ++ shown_title (title m)).
Proof.
  intros H. unfold numbered_titles. rewrite list_lookup_imap, H. cbn.
  now rewrite Nat.add_1_r.
Qed.

(** X12.  When the text is found in two markets or more, the message of the
    [ValueError] that [match] raises is the line [Multiple markets matching
    '<query>' (<n> matches):], one line for each of these markets, in their
    order, and the closing line; the line of the market at position [i]
    (from 0) is [<i+1>. <title>] with the whole title when it has at most 70
    characters, and [<i+1>. <first 70 characters>...] when it has more. *)
Theorem title_line_truncation (self : list UnifiedMarket) (query : str)
    (fields : list SearchField) (matches : list UnifiedMarket) :
  filter_markets lower self (CriteriaDict (text_criteria query fields))
    = Ok matches ->
  (2 <= length matches)%nat ->
  exists lines : list str,
    match_ lower self query (Some fields) =
      Raise (Exn ValueError
        (lit "Multiple markets matching '" ++ query ++ lit "' (" ++
         str_of_nat (length matches) ++ lit " matches):" ++ nl ++ lit "  " ++
         join (nl ++ lit "  ") lines ++
         nl ++ nl ++ lit "Please refine your search.")) /\
    length lines = length matches /\
    forall (i : nat) (m : UnifiedMarket), matches !! i = Some m ->
      ((length (title m) <= 70)%nat ->
         lines !! i = Some (str_of_nat (i + 1) ++ lit ". " ++ title m)) /\
      ((70 < length (title m))%nat ->
         lines !! i =
           Some (str_of_nat (i + 1) ++ lit ". " ++ take 70 (title m) ++
                 lit "...") /\
         length (take 70 (title m)) = 70%nat).
Proof.
  intros Hsel Hlen. exists (numbered_titles matches). split; [|split].
  - rewrite <- multiple_match_msg_lines.
    apply match_many; [|exact Hlen]. now apply match_selection.
  - apply length_imap.
  - intros i m Hm. rewrite (numbered_titles_lookup _ _ _ Hm).
    unfold shown_title. split; intros H.
    + now rewrite decide_True by lia.
    + rewrite decide_False by lia. split; [reflexivity|].
      rewrite length_take. lia.
Qed.

(** X13.  Only the lowercase form of the query is used: two queries with
    the same lowercase form select the same markets, with a string, with a
    text constraint on any fields, and in [match], which returns the same
    market or raises the same kind of error, the message quoting the query
    as it was given. *)
Theorem query_case_insensitive (self : list UnifiedMarket) (q1 q2 : str)
    (fields : list SearchField) :
  lower q1 = lower q2 ->
  filter_markets lower self (CriteriaStr q1) =
    filter_markets lower self (CriteriaStr q2) /\
  filter_markets lower self (CriteriaDict (text_criteria q1 fields)) =
    filter_markets lower self (CriteriaDict (text_criteria q2 fields)) /\
  exists matches,
    forall q, q = q1 \/ q = q2 ->
      match_ lower self q (Some fields) =
        match matches with
        | [] => Raise (Exn ValueError (no_match_msg q))
        | [m] => Ok m
        | _ => Raise (Exn ValueError (multiple_match_msg q matches))
        end.
Proof.
  intros E. split; [|split].
  - cbn [filter_markets]. now rewrite E.
  - rewrite !(filter_by_verdict lower) by reflexivity. f_equal.
    apply filter_ext. intros m. now rewrite !verdict_text, E.
  - exists (collect_matches lower (lower q1) fields self).
    assert (H : forall q, lower q = lower q1 ->
              match_ lower self q (Some fields) =
              match collect_matches lower (lower q1) fields self with
              | [] => Raise (Exn ValueError (no_match_msg q))
              | [m] => Ok m
              | _ => Raise (Exn ValueError
                              (multiple_match_msg q
                                 (collect_matches lower (lower q1) fields self)))
              end).
    { intros q Hq. unfold match_. rewrite Hq.
      now destruct (collect_matches lower (lower q1) fields self)
        as [|a [|b rest]]. }
    intros q [->| ->]; apply H; congruence.
Qed.

End MatchAndFilter.

Lemma title_line_truncation_witness :
  match_ Sample.ascii_lower [Sample.long_market; Sample.accented_market]
    (lit "WILL") (Some [title_field]) =
    Raise (Exn ValueError
      (lit "Multiple markets matching 'WILL' (2 matches):" ++ nl ++
       lit "  1. Will the candidate who leads the polls in March win the election in No..."
       ++ nl ++ lit "  2. Will the pr" ++ [233%N] ++
       lit "sident of the republic be elected again in the next spring" ++
       nl ++ nl ++ lit "Please refine your search.")).
Proof.
  destruct (title_line_truncation Sample.ascii_lower
              [Sample.long_market; Sample.accented_market] (lit "WILL")
              [title_field] [Sample.long_market; Sample.accented_market])
    as (lines & Hraise & Hlen & Hlines).
  - reflexivity.
  - cbn. lia.
  - destruct (Hlines 0%nat Sample.long_market eq_refl) as [_ H0].
    destruct (Hlines 1%nat Sample.accented_market eq_refl) as [H1 _].
    destruct H0 as [H0 _]; [cbn; lia|].
    specialize (H1 ltac:(cbn; lia)).
    destruct lines as [|l0 [|l1 [|l2 lines]]]; try discriminate Hlen.
    injection H0 as ->. injection H1 as ->.
    rewrite Hraise. reflexivity.
Defined.

Lemma query_case_insensitive_witness :
  filter_markets Sample.ascii_lower Sample.records (CriteriaStr (lit "TRUMP")) =
    filter_markets Sample.ascii_lower Sample.records (CriteriaStr (lit "trump")) /\
  match_ Sample.ascii_lower Sample.records (lit "TRUMP") (Some [title_field])
    = Ok Sample.trump /\
  match_ Sample.ascii_lower Sample.records (lit "trump") (Some [title_field])
    = Ok Sample.trump.
Proof.
  destruct (query_case_insensitive Sample.ascii_lower Sample.records
              (lit "TRUMP") (lit "trump") [title_field])
    as (Hstr & _ & matches & Hmatch); [reflexivity|].
  split; [exact Hstr|].
  assert (Hm : matches = [Sample.trump]).
  { specialize (Hmatch (lit "TRUMP") (or_introl eq_refl)).
    destruct matches as [|a [|b rest]]; vm_compute in Hmatch;
      try discriminate Hmatch.
    now injection Hmatch as <-. }
  split.
  - rewrite (Hmatch (lit "TRUMP") (or_introl eq_refl)), Hm. reflexivity.
  - rewrite (Hmatch (lit "trump") (or_intror eq_refl)), Hm. reflexivity.
Defined.

(** ** [filter_events] *)

Section EventFilter.

Variable lower : str -> str.
Variable py_sum : list Q -> Q.

Lemma filter_events_loop_filter (c : EventFilterCriteria)
    (events : list UnifiedEvent) :
  filter_events_loop lower py_sum c events =
  List.filter (event_passes lower py_sum c) events.
Proof. induction events as [|e l IH]; cbn; [reflexivity | now rewrite IH]. Qed.

Lemma event_passes_andb (c : EventFilterCriteria) (e : UnifiedEvent) :
  event_passes lower py_sum c e =
  event_text_ok lower c e && event_category_ok c e && event_tags_ok lower c e &&
  range_ok (ec_market_count c) (market_count e) &&
  range_ok (ec_total_volume c) (total_volume py_sum e).
Proof.
  unfold event_passes.
  now destruct (event_text_ok lower c e), (event_category_ok c e),
    (event_tags_ok lower c e), (range_ok (ec_market_count c) (market_count e)),
    (range_ok (ec_total_volume c) (total_volume py_sum e)).
Qed.

(** X14.  For events as for markets, filtering with the string [s] is
    filtering with [{"text": s, "search_in": ["title"]}]; both keep, in
    their order, the events whose title is not empty and contains [s] up to
    case. *)
Theorem event_string_filter_equivalence (events : list UnifiedEvent)
    (s : str) :
  filter_events lower py_sum events (EventStr s) =
    filter_events lower py_sum events (EventDict (event_title_text s)) /\
  exists keep,
    (forall e, keep e = true <->
       ev_title e <> [] /\ contains_ci lower s (ev_title e)) /\
    filter_events lower py_sum events (EventStr s) = List.filter keep events.
Proof.
  split.
  - cbn [filter_events]. rewrite filter_events_loop_filter.
    apply filter_ext. intros e. rewrite event_passes_andb.
    unfold event_text_ok, event_text_match. cbn.
    now destruct (str_hit lower (lower s) (ev_title e)).
  - exists (fun e => str_hit lower (lower s) (ev_title e)). split; [|reflexivity].
    intros e. unfold str_hit.
    now rewrite andb_true_iff, str_truthy_iff, (contains_ci_iff lower).
Qed.

Lemma event_text_ok_union (c1 c2 : EventFilterCriteria) (e : UnifiedEvent) :
  key_disjoint (ec_text c1) (ec_text c2) ->
  key_disjoint (ec_search_in c1) (ec_search_in c2) ->
  event_scope_with_text c1 c2 ->
  event_text_ok lower (event_criteria_union c1 c2) e =
  event_text_ok lower c1 e && event_text_ok lower c2 e.
Proof.
  unfold event_text_ok, event_scope_with_text, key_disjoint. cbn.
  destruct (ec_text c1), (ec_text c2), (ec_search_in c1), (ec_search_in c2);
    cbn; intros [?|?] [?|?] [[?|?] [?|?]]; try discriminate;
    now rewrite ?andb_true_r.
Qed.

Lemma event_category_ok_union (c1 c2 : EventFilterCriteria) (e : UnifiedEvent) :
  key_disjoint (ec_category c1) (ec_category c2) ->
  event_category_ok (event_criteria_union c1 c2) e =
  event_category_ok c1 e && event_category_ok c2 e.
Proof.
  unfold event_category_ok, key_disjoint. cbn.
  destruct (ec_category c1), (ec_category c2); cbn; intros [?|?];
    try discriminate; now rewrite ?andb_true_r.
Qed.

Lemma event_tags_ok_union (c1 c2 : EventFilterCriteria) (e : UnifiedEvent) :
  key_disjoint (ec_tags c1) (ec_tags c2) ->
  event_tags_ok lower (event_criteria_union c1 c2) e =
  event_tags_ok lower c1 e && event_tags_ok lower c2 e.
Proof.
  unfold event_tags_ok, key_disjoint. cbn.
  destruct (ec_tags c1) as [[|? ?]|], (ec_tags c2) as [[|? ?]|]; cbn;
    intros [?|?]; try discriminate; now rewrite ?andb_true_r.
Qed.

Lemma event_passes_union (c1 c2 : EventFilterCriteria) (e : UnifiedEvent) :
  event_keys_disjoint c1 c2 -> event_scope_with_text c1 c2 ->
  event_passes lower py_sum (event_criteria_union c1 c2) e =
  event_passes lower py_sum c1 e && event_passes lower py_sum c2 e.
Proof.
  intros (Ht & Hs & Hc & Hg & Hm & Hv) Hscope.
  rewrite !event_passes_andb.
  rewrite (event_text_ok_union _ _ e Ht Hs Hscope),
    (event_category_ok_union _ _ e Hc), (event_tags_ok_union _ _ e Hg).
  change (ec_market_count (event_criteria_union c1 c2))
    with (key_union (ec_market_count c1) (ec_market_count c2)).
  change (ec_total_volume (event_criteria_union c1 c2))
    with (key_union (ec_total_volume c1) (ec_total_volume c2)).
  rewrite (range_ok_union _ _ _ Hm), (range_ok_union _ _ _ Hv).
  btauto.
Qed.

(** X15.  Criteria for events always apply in either order with the same
    result; and for two dictionaries without a common key, where
    [search_in] is not split from [text], filtering with their union is
    filtering with one and then with the other.  No hypothesis on the events
    is needed: [filter_events] compares no dates. *)
Theorem event_filter_conjunction (events : list UnifiedEvent)
    (c1 c2 : EventFilterCriteria) :
  filter_events lower py_sum (filter_events lower py_sum events (EventDict c1)) (EventDict c2) =
  filter_events lower py_sum (filter_events lower py_sum events (EventDict c2)) (EventDict c1)
  /\
  (event_keys_disjoint c1 c2 -> event_scope_with_text c1 c2 ->
   filter_events lower py_sum events (EventDict (event_criteria_union c1 c2)) =
   filter_events lower py_sum (filter_events lower py_sum events (EventDict c1))
     (EventDict c2)).
Proof.
  cbn [filter_events]. rewrite !filter_events_loop_filter, !filter_filter_andb.
  split.
  - apply filter_ext. intros e. apply andb_comm.
  - intros Hk Hs. apply filter_ext. intros e. now apply event_passes_union.
Qed.

Lemma event_range_verdict (f : MinMax) (e : UnifiedEvent) :
  event_passes lower py_sum (market_count_criteria f) e =
    negb (range_rejects f (market_count e)) /\
  event_passes lower py_sum (total_volume_criteria f) e =
    negb (range_rejects f (total_volume py_sum e)).
Proof.
  rewrite !event_passes_andb. cbn. now rewrite !andb_true_r.
Qed.

(** X16.  The [market_count] range keeps the events whose number of markets
    is neither below [min] nor above [max], and the [total_volume] range
    keeps the events whose summed 24-hour volume is neither below [min] nor
    above [max]; when the sum of no number is 0, an event without markets
    passes a [total_volume] range exactly when 0 lies inside it. *)
Theorem event_range_filters (events : list UnifiedEvent) (f : MinMax) :
  (exists keep,
     (forall e, keep e = false <-> outside f (market_count e)) /\
     filter_events lower py_sum events (EventDict (market_count_criteria f)) =
       List.filter keep events) /\
  (exists keep,
     (forall e, keep e = false <-> outside f (total_volume py_sum e)) /\
     filter_events lower py_sum events (EventDict (total_volume_criteria f)) =
       List.filter keep events) /\
  ((py_sum [] == 0)%Q ->
   forall e, ev_markets e = [] ->
     (event_passes lower py_sum (total_volume_criteria f) e = false <->
      outside f 0%Q)).
Proof.
  split; [|split].
  - exists (event_passes lower py_sum (market_count_criteria f)).
    split; [|apply filter_events_loop_filter].
    intros e. rewrite (proj1 (event_range_verdict f e)), negb_false_iff.
    apply range_rejects_iff.
  - exists (event_passes lower py_sum (total_volume_criteria f)).
    split; [|apply filter_events_loop_filter].
    intros e. rewrite (proj2 (event_range_verdict f e)), negb_false_iff.
    apply range_rejects_iff.
  - intros H0 e He.
    rewrite (proj2 (event_range_verdict f e)), negb_false_iff,
      range_rejects_iff.
    unfold total_volume. rewrite He. cbn [map].
    split; apply outside_compat; [exact H0 | now symmetry].
Qed.

End EventFilter.

Lemma event_filter_conjunction_witness :
  filter_events Sample.ascii_lower exact_sum
    [event_of (lit "Fed Rate Decisions") [Sample.trump] (Some (lit "Economics")) None;
     event_of (lit "Crypto") [] (Some (lit "Crypto")) None]
    (EventDict (event_criteria_union
       (market_count_criteria {| mm_min := Some 1%Q; mm_max := None |})
       (event_title_text (lit "fed"))))
  = [event_of (lit "Fed Rate Decisions") [Sample.trump] (Some (lit "Economics")) None].
Proof.
  destruct (event_filter_conjunction Sample.ascii_lower exact_sum
    [event_of (lit "Fed Rate Decisions") [Sample.trump] (Some (lit "Economics")) None;
     event_of (lit "Crypto") [] (Some (lit "Crypto")) None]
    (market_count_criteria {| mm_min := Some 1%Q; mm_max := None |})
    (event_title_text (lit "fed"))) as [_ H].
  rewrite H.
  - reflexivity.
  - unfold event_keys_disjoint, key_disjoint; cbn; tauto.
  - unfold event_scope_with_text; cbn; tauto.
Defined.

Lemma event_range_filters_witness :
  event_passes Sample.ascii_lower exact_sum
    (total_volume_criteria {| mm_min := Some 1%Q; mm_max := None |})
    (event_of (lit "Crypto") [] None None) = false.
Proof.
  destruct (event_range_filters Sample.ascii_lower exact_sum []
              {| mm_min := Some 1%Q; mm_max := None |}) as [_ [_ H]].
  apply (H (reflexivity _) (event_of (lit "Crypto") [] None None) eq_refl).
  left. exists 1%Q. split; reflexivity.
Defined.

(** ** Response envelopes, credentials and the market cache *)

Section ClientHelpers.

(** X17.  [_handle_response] returns exactly when the [success] field of
    the envelope counts as true, and then it returns the [data] field, or
    [None] when there is none; an envelope without [success], or with a
    false one, never yields data, whatever else it holds. *)
Theorem handle_response_returns (response : gmap str pyval) (data : pyval) :
  _handle_response response = Returned data <->
  truthy (dict_get response (lit "success") PNone) = true /\
  data = dict_get response (lit "data") PNone.
Proof.
  unfold _handle_response.
  destruct (truthy (dict_get response (lit "success") PNone)); cbn [negb].
  - split; [intros [= <-]; now split | intros [_ ->]; reflexivity].
  - split; [|intros [? _]; discriminate].
    destruct (dict_get response (lit "error") (PDict ∅)); discriminate.
Qed.

(** X18.  The message that [_handle_response] raises for a failed envelope
    is the message that [_extract_api_error] extracts from an exception
    whose body is this envelope, except when the envelope has no message:
    then the first says [Unknown error] and the second gives the text of the
    exception. *)
Theorem envelope_error_consistent (d : gmap str pyval) (text : str)
    (arg : pyval) :
  _handle_response d = RaisedException arg ->
  _extract_api_error (api_exception d text) = arg \/
  (arg = PStr (lit "Unknown error") /\
   _extract_api_error (api_exception d text) = PStr text).
Proof.
  unfold _handle_response, _extract_api_error, api_exception, dict_get.
  cbn [ae_body ae_str].
  destruct (truthy match d !! lit "success" with Some v => v | None => PNone end);
    cbn [negb]; [discriminate|].
  destruct (d !! lit "error") as [[| | | | s | | ed]|]; try discriminate.
  - intros [= <-]. now left.
  - destruct (ed !! lit "message") as [v|]; intros [= <-]; [now left|].
    right. now split.
  - rewrite lookup_empty. intros [= <-]. right. now split.
Qed.

Lemma envelope_error_consistent_witness :
  _extract_api_error
    (api_exception (<[lit "success" := PBool false]>
                      (<[lit "error" := PStr (lit "rate limited")]> ∅)) (lit "(429)")) =
  PStr (lit "rate limited").
Proof.
  destruct (envelope_error_consistent
              (<[lit "success" := PBool false]> (<[lit "error" := PStr (lit "rate limited")]> ∅))
              (lit "(429)") (PStr (lit "rate limited"))) as [H|[H _]].
  - reflexivity.
  - exact H.
  - discriminate.
Defined.

Lemma put_if_lookup (cond : bool) (key key' : str) (v : pyval)
    (d : gmap str pyval) :
  put_if cond key v d !! key' =
  if cond && str_eqb key key' then Some v else d !! key'.
Proof.
  unfold put_if. destruct cond; cbn [andb]; [|reflexivity].
  destruct (str_eqb key key') eqn:E.
  - apply str_eqb_eq in E as ->. apply lookup_insert_eq.
  - apply lookup_insert_ne. intros ->. now rewrite str_eqb_refl in E.
Qed.

Lemma opt_truthy_iff (s : option str) :
  opt_truthy s = true <-> exists t, s = Some t /\ t <> [].
Proof.
  destruct s as [t|]; cbn.
  - rewrite str_truthy_iff. split; [intros H; now exists t|].
    now intros (t' & [= <-] & H).
  - split; [discriminate | now intros (t & ? & _)].
Qed.

(** X19.  [_get_credentials_dict] returns [None] exactly when neither an
    API key nor a private key is set, also when a proxy address or a
    signature type is; a dictionary it returns holds [apiKey] and
    [privateKey] exactly for the keys that are set and not empty. *)
Theorem credentials_need_a_key (self : credentials) :
  (_get_credentials_dict self = None <->
   opt_truthy (api_key self) = false /\ opt_truthy (private_key self) = false)
  /\
  forall creds, _get_credentials_dict self = Some creds ->
    (forall k, creds !! lit "apiKey" = Some (PStr k) <->
               api_key self = Some k /\ k <> []) /\
    (forall k, creds !! lit "privateKey" = Some (PStr k) <->
               private_key self = Some k /\ k <> []) /\
    (creds !! lit "funderAddress" = None <-> opt_truthy (proxy_address self) = false).
Proof.
  unfold _get_credentials_dict.
  set (c1 := put_if (opt_truthy (api_key self)) (lit "apiKey")
               (str_value (api_key self)) ∅).
  set (c2 := put_if (opt_truthy (private_key self)) (lit "privateKey")
               (str_value (private_key self)) c1).
  set (c3 := put_if (opt_truthy (proxy_address self)) (lit "funderAddress")
               (str_value (proxy_address self)) c2).
  set (c4 := match signature_type self with
             | PNone => c3
             | v => <[lit "signatureType" := v]> c3
             end).
  assert (L4 : forall key, key <> (lit "signatureType") -> c4 !! key = c3 !! key).
  { intros key Hk. unfold c4.
    destruct (signature_type self); try reflexivity;
      now apply lookup_insert_ne. }
  assert (Lapi : c4 !! lit "apiKey" =
                 if opt_truthy (api_key self)
                 then Some (str_value (api_key self)) else None).
  { rewrite L4 by discriminate. unfold c3, c2, c1.
    rewrite !put_if_lookup. cbn. rewrite !andb_false_r, andb_true_r.
    now rewrite lookup_empty. }
  assert (Lpriv : c4 !! lit "privateKey" =
                  if opt_truthy (private_key self)
                  then Some (str_value (private_key self)) else None).
  { rewrite L4 by discriminate. unfold c3, c2, c1.
    rewrite !put_if_lookup. cbn. rewrite !andb_false_r, andb_true_r.
    destruct (opt_truthy (private_key self)); [reflexivity|].
    now rewrite lookup_empty. }
  assert (Lproxy : c4 !! lit "funderAddress" =
                   if opt_truthy (proxy_address self)
                   then Some (str_value (proxy_address self)) else None).
  { rewrite L4 by discriminate. unfold c3, c2, c1.
    rewrite !put_if_lookup. cbn. rewrite !andb_false_r, andb_true_r.
    destruct (opt_truthy (proxy_address self)); [reflexivity|].
    now rewrite lookup_empty. }
  assert (Hne : opt_truthy (api_key self) = true \/
                opt_truthy (private_key self) = true ->
                bool_decide (c4 = ∅) = false).
  { intros H. apply bool_decide_eq_false_2. intros E.
    rewrite E, lookup_empty in Lapi, Lpriv.
    destruct H as [H|H]; rewrite H in *; discriminate. }
  split.
  - destruct (opt_truthy (api_key self)) eqn:Ea,
      (opt_truthy (private_key self)) eqn:Ep; cbn [negb andb];
      try (rewrite Hne by auto; split; [discriminate | intros [? ?]; discriminate]).
    split; [now split | reflexivity].
  - intros creds H.
    assert (Hc : creds = c4).
    { destruct (negb (opt_truthy (api_key self))
                && negb (opt_truthy (private_key self))); [discriminate|].
      destruct (bool_decide (c4 = ∅)); [discriminate|]. congruence. }
    subst creds. rewrite Lapi, Lpriv, Lproxy. split; [|split].
    + intros k. destruct (api_key self) as [t|]; cbn.
      * destruct (str_truthy t) eqn:Et.
        -- apply str_truthy_iff in Et. split; [intros [= <-]; now split|].
           now intros [[= <-] _].
        -- split; [discriminate|]. intros [[= <-] Hk].
           apply str_truthy_iff in Hk. congruence.
      * split; [discriminate | now intros [? _]].
    + intros k. destruct (private_key self) as [t|]; cbn.
      * destruct (str_truthy t) eqn:Et.
        -- apply str_truthy_iff in Et. split; [intros [= <-]; now split|].
           now intros [[= <-] _].
        -- split; [discriminate|]. intros [[= <-] Hk].
           apply str_truthy_iff in Hk. congruence.
      * split; [discriminate | now intros [? _]].
    + destruct (opt_truthy (proxy_address self)); split; congruence.
Qed.

Lemma credentials_need_a_key_witness :
  _get_credentials_dict
    {| api_key := None; private_key := Some (lit "");
       proxy_address := Some (lit "0xabc"); signature_type := PInt 1 |} = None.
Proof.
  destruct (credentials_need_a_key
              {| api_key := None; private_key := Some (lit "");
                 proxy_address := Some (lit "0xabc"); signature_type := PInt 1 |})
    as [[_ H] _].
  apply H. split; reflexivity.
Defined.

End ClientHelpers.

Section MarketCache.

Lemma index_markets_snoc (ms : list UnifiedMarket) (x : UnifiedMarket) :
  index_markets (ms ++ [x]) = <[market_id x := x]> (index_markets ms).
Proof. unfold index_markets. now rewrite fold_left_app. Qed.

Lemma index_markets_sound (ms : list UnifiedMarket) (k : str)
    (m : UnifiedMarket) :
  index_markets ms !! k = Some m -> In m ms /\ market_id m = k.
Proof.
  induction ms as [|x ms IH] using rev_ind.
  - unfold index_markets. cbn. now rewrite lookup_empty.
  - rewrite index_markets_snoc.
    destruct (decide (market_id x = k)) as [<-|Hne].
    + rewrite lookup_insert_eq. intros [= <-].
      split; [apply in_or_app; right; now left | reflexivity].
    + rewrite lookup_insert_ne by exact Hne. intros H.
      destruct (IH H) as [Hin Hk]. split; [apply in_or_app; now left | exact Hk].
Qed.

Lemma index_markets_complete (ms : list UnifiedMarket) (m : UnifiedMarket) :
  In m ms ->
  exists m', index_markets ms !! market_id m = Some m' /\
             In m' ms /\ market_id m' = market_id m.
Proof.
  induction ms as [|x ms IH] using rev_ind; [intros []|].
  intros Hin. rewrite index_markets_snoc.
  destruct (decide (market_id x = market_id m)) as [E|Hne].
  - exists x. rewrite <- E, lookup_insert_eq.
    split; [reflexivity|]. split; [apply in_or_app; right; now left | reflexivity].
  - rewrite lookup_insert_ne by exact Hne.
    apply in_app_or in Hin as [Hin|[->|[]]]; [|congruence].
    destruct (IH Hin) as (m' & H1 & H2 & H3). exists m'.
    split; [exact H1|]. split; [apply in_or_app; now left | exact H3].
Qed.

(** X20.  Whenever [load_markets] fetches the markets, on the first call
    as on a reload, and whatever the two tables held before, the cache then
    holds, under each market identifier that was fetched, a fetched market
    with this identifier, and nothing else; when the identifiers identify
    the markets, every fetched market is found under its identifier.  The
    table [markets_by_slug] is emptied and not filled. *)
Theorem load_markets_index (fetched : list UnifiedMarket) (reload : bool)
    (self : market_cache) :
  _loaded_markets self = false \/ reload = true ->
  exists self',
    load_markets (Ok fetched) reload self = (Ok (markets self'), self') /\
    _loaded_markets self' = true /\
    markets_by_slug self' = ∅ /\
    fetch_calls self' = S (fetch_calls self) /\
    (forall k m, markets self' !! k = Some m -> In m fetched /\ market_id m = k) /\
    (forall m, In m fetched ->
       exists m', markets self' !! market_id m = Some m' /\
                  market_id m' = market_id m) /\
    (ids_identify fetched ->
     forall m, In m fetched -> markets self' !! market_id m = Some m).
Proof.
  intros Hl. unfold load_markets.
  assert (E : _loaded_markets self && negb reload = false).
  { destruct Hl as [-> | ->]; [reflexivity | apply andb_false_r]. }
  rewrite E.
  eexists. split; [reflexivity|]. cbn.
  repeat split; try reflexivity.
  - now apply index_markets_sound in H.
  - now apply index_markets_sound in H.
  - intros m Hin. destruct (index_markets_complete _ _ Hin) as (m' & H1 & _ & H3).
    now exists m'.
  - intros Hid m Hin.
    destruct (index_markets_complete _ _ Hin) as (m' & H1 & H2 & H3).
    now rewrite (Hid m' m H2 Hin H3) in H1.
Qed.

Lemma load_markets_index_witness :
  exists self',
    load_markets (Ok [Sample.naive_dated]) true
      {| markets := index_markets [Sample.abc];
         markets_by_slug := {[ lit "abc" := Sample.abc ]};
         _loaded_markets := true; fetch_calls := 1 |}
      = (Ok (markets self'), self') /\
    markets self' !! lit "2" = Some Sample.naive_dated /\
    markets self' !! lit "1" = None /\
    markets_by_slug self' = ∅ /\
    fetch_calls self' = 2%nat.
Proof.
  destruct (load_markets_index [Sample.naive_dated] true
              {| markets := index_markets [Sample.abc];
                 markets_by_slug := {[ lit "abc" := Sample.abc ]};
                 _loaded_markets := true; fetch_calls := 1 |})
    as (self' & H1 & _ & H3 & H4 & H5 & _ & H7); [now right|].
  exists self'. split; [exact H1|]. split; [|split; [|split]].
  - apply (H7 (fun m1 m2 (H1 : In m1 [Sample.naive_dated])
                 (H2 : In m2 [Sample.naive_dated])
                 (E : market_id m1 = market_id m2) =>
                 ltac:(destruct H1 as [<-|[]], H2 as [<-|[]]; reflexivity))
             Sample.naive_dated).
    now left.
  - destruct (markets self' !! lit "1") as [m|] eqn:E; [|reflexivity].
    destruct (H5 _ _ E) as [[<-|[]] Hid]. discriminate Hid.
  - exact H3.
  - exact H4.
Defined.

(** X21.  Once [load_markets] has returned a table, every further call
    without [reload] returns the same table and leaves the state as it is,
    without a fetch, whatever the server would answer. *)
Theorem load_markets_caches (fetch fetch' : result (list UnifiedMarket))
    (reload : bool) (self self1 : market_cache)
    (table : gmap str UnifiedMarket) :
  load_markets fetch reload self = (Ok table, self1) ->
  load_markets fetch' false self1 = (Ok table, self1) /\
  (reload = false -> _loaded_markets self = true ->
   self1 = self /\ table = markets self).
Proof.
  unfold load_markets.
  destruct (_loaded_markets self && negb reload) eqn:E.
  - intros [= <- <-]. apply andb_true_iff in E as [E1 E2].
    rewrite E1. cbn. split; [reflexivity | now split].
  - destruct fetch as [fetched|e]; [|discriminate].
    intros [= <- <-]. cbn. split; [reflexivity|].
    intros -> Hl. rewrite Hl in E. discriminate.
Qed.

Lemma load_markets_caches_witness :
  load_markets (Raise (Exn Exception (lit "Failed to fetch markets: offline"))) false
    {| markets := index_markets [Sample.abc]; markets_by_slug := ∅;
       _loaded_markets := true; fetch_calls := 1 |}
  = (Ok (index_markets [Sample.abc]),
     {| markets := index_markets [Sample.abc]; markets_by_slug := ∅;
        _loaded_markets := true; fetch_calls := 1 |}).
Proof.
  apply (load_markets_caches (Ok [Sample.abc]) _ false fresh_cache).
  reflexivity.
Defined.

(** X22.  When the fetch of a reload fails, [load_markets] raises the
    exception of the fetch and keeps the tables as they were: a following
    call without [reload] still returns the table loaded before. *)
Theorem load_markets_failed_reload (e : exn)
    (fetch' : result (list UnifiedMarket)) (self : market_cache) :
  _loaded_markets self = true ->
  exists self1,
    load_markets (Raise e) true self = (Raise e, self1) /\
    markets self1 = markets self /\
    markets_by_slug self1 = markets_by_slug self /\
    load_markets fetch' false self1 = (Ok (markets self), self1).
Proof.
  intros Hl.
  exists {| markets := markets self; markets_by_slug := markets_by_slug self;
            _loaded_markets := _loaded_markets self;
            fetch_calls := S (fetch_calls self) |}.
  unfold load_markets. cbn [markets markets_by_slug _loaded_markets fetch_calls].
  rewrite Hl. cbn [negb andb]. now repeat split.
Qed.

Lemma load_markets_failed_reload_witness :
  exists self1,
    load_markets (Raise (Exn Exception (lit "offline"))) true
      {| markets := index_markets [Sample.abc]; markets_by_slug := ∅;
         _loaded_markets := true; fetch_calls := 1 |} =
      (Raise (Exn Exception (lit "offline")), self1) /\
    markets self1 = index_markets [Sample.abc].
Proof.
  destruct (load_markets_failed_reload (Exn Exception (lit "offline")) (Ok [])
              {| markets := index_markets [Sample.abc]; markets_by_slug := ∅;
                 _loaded_markets := true; fetch_calls := 1 |})
    as (self1 & H1 & H2 & _); [reflexivity|].
  exists self1. now split.
Defined.

End MarketCache.

(** ** [ServerManager]: what the alive check tells, what the calls cost *)

Section SupervisorMore.
Import ServerManager.

(** The port [is_server_alive] asks: the [port] of the lock file, and the
    default port when the lock file has none. *)
Lemma is_server_alive_steps (self : t) (w : world) (f : lock_file)
    (d : gmap str pyval) :
  w_lock w = Some f -> lf_content f = Json (PDict d) ->
  is_server_alive self w =
    let pid := match d !! lit "pid" with Some x => x | None => PNone end in
    let port := lock_port d in
    if negb (truthy pid) then (Ok false, w)
    else
      match _is_process_running self pid w with
      | (Ok true, w1) => _check_health self port 1 w1
      | (Ok false, w1) =>
          match _remove_stale_lock self w1 with
          | (Ok _, w2) => (Ok false, w2)
          | (Raise e, w2) => (Raise e, w2)
          end
      | (Raise e, w1) =>
          if isinstance e JSONDecodeError || isinstance e OSError
          then (Ok false, w1) else (Raise e, w1)
      end.
Proof.
  intros Hf Hc.
  unfold is_server_alive, mbind, M_bind, lock_exists, try_except at 1,
    read_lock_json, lift, py_get.
  rewrite Hf, Hc. cbn [negb]. rewrite Hf, Hc. cbn [negb].
  destruct (negb (truthy _)); [reflexivity|].
  destruct (_is_process_running self _ w) as [[[|]|e] w1]; cbn [negb].
  - reflexivity.
  - unfold _remove_stale_lock, try_except, unlink.
    destruct (w_lock w1) as [f1|];
      [destruct (lf_content f1), (lf_removable f1)|]; reflexivity.
  - reflexivity.
Qed.

Lemma os_kill_0_state (pid : pyval) (w w1 : world) (r : result unit) :
  os_kill_0 pid w = (r, w1) -> w1 = w.
Proof.
  unfold os_kill_0. intros H.
  repeat case_match; injection H as _ <-; reflexivity.
Qed.

Lemma is_process_running_state (self : t) (pid : pyval) (w w1 : world)
    (r : result bool) :
  _is_process_running self pid w = (r, w1) -> w1 = w.
Proof.
  unfold _is_process_running, try_except, mbind, M_bind.
  destruct (os_kill_0 pid w) as [[[]|e] w2] eqn:E;
    apply os_kill_0_state in E; subst w2.
  - now intros [= _ <-].
  - destruct (isinstance e OSError); now intros [= _ <-].
Qed.

(** What a [True] of [is_server_alive] rests on. *)
Lemma is_server_alive_true (self : t) (w w' : world) :
  is_server_alive self w = (Ok true, w') ->
  exists f d pid,
    w_lock w = Some f /\ lf_content f = Json (PDict d) /\
    d !! lit "pid" = Some pid /\ truthy pid = true /\
    _is_process_running self pid w = (Ok true, w) /\
    w_health w (w_clock w) (lock_port d) 1 = true /\
    w' = advance (w_latency w (w_clock w) (lock_port d) 1) w.
Proof.
  intros H.
  destruct (w_lock w) as [f|] eqn:Hf.
  - destruct (lf_content f) as [r|r|r|r|v] eqn:Hc.
    + unfold is_server_alive, mbind, M_bind, lock_exists in H.
      rewrite Hf, Hc in H. discriminate.
    + rewrite (malformed_lock_tolerated self w f Hf
                 (or_introl (ex_intro _ r Hc))) in H.
      discriminate.
    + unfold is_server_alive, mbind, M_bind, lock_exists, try_except,
        read_lock_json in H.
      rewrite Hf, Hc in H. cbn [negb] in H. rewrite Hf, Hc in H. discriminate.
    + rewrite (malformed_lock_tolerated self w f Hf
                 (or_intror (or_introl (ex_intro _ r Hc)))) in H.
      discriminate.
    + destruct v as [| | | | | |d];
        try (rewrite (non_object_lock_raises self w f _ Hf Hc) in H;
             [discriminate | intros d'; discriminate]).
      rewrite (is_server_alive_steps self w f d Hf Hc) in H. cbv zeta in H.
      destruct (d !! lit "pid") as [pid|] eqn:Hpid; [|discriminate].
      destruct (truthy pid) eqn:Ht; [|discriminate]. cbn [negb] in H.
      destruct (_is_process_running self pid w) as [[[|]|e] w1] eqn:Hrun.
      * pose proof (is_process_running_state _ _ _ _ _ Hrun) as ->.
        unfold _check_health in H. injection H as Hh <-.
        exists f, d, pid. repeat split; try assumption; reflexivity.
      * destruct (_remove_stale_lock self w1) as [[?|?] ?]; discriminate.
      * destruct (_ || _); discriminate.
  - unfold is_server_alive, mbind, M_bind, lock_exists in H.
    rewrite Hf in H. discriminate.
Qed.

(** X23.  When [is_server_alive] returns [True], the lock file holds a JSON
    object with a [pid] that counts as true and that [os.kill(pid, 0)]
    accepted, and the health request on the port of the lock file (the
    default port when it has none), made with a timeout of one second, was
    answered; the call took the time of this request, and the lock file and
    the process table are as they were. *)
Theorem is_server_alive_sound (self : t) (w w' : world) :
  is_server_alive self w = (Ok true, w') ->
  exists f d pid port,
    w_lock w = Some f /\ lf_content f = Json (PDict d) /\
    d !! lit "pid" = Some pid /\ truthy pid = true /\
    _is_process_running self pid w = (Ok true, w) /\
    port = match d !! lit "port" with
           | Some x => x
           | None => PInt 3847
           end /\
    w_health w (w_clock w) port 1 = true /\
    w_clock w' = (w_clock w + w_latency w (w_clock w) port 1)%nat /\
    w_lock w' = w_lock w /\ w_procs w' = w_procs w.
Proof.
  intros H.
  destruct (is_server_alive_true self w w' H)
    as (f & d & pid & H1 & H2 & H3 & H4 & H5 & H6 & ->).
  exists f, d, pid, (lock_port d). now repeat split.
Qed.

Lemma is_server_alive_sound_witness :
  exists f d pid port,
    w_lock Sample.alive_world = Some f /\ lf_content f = Json (PDict d) /\
    d !! lit "pid" = Some pid /\ truthy pid = true /\
    port = PInt 3847 /\
    w_health Sample.alive_world 0 port 1 = true.
Proof.
  destruct (is_server_alive_sound Sample.manager Sample.alive_world
              (advance 5 Sample.alive_world) (reflexivity _))
    as (f & d & pid & port & H1 & H2 & H3 & H4 & _ & H6 & H7 & _).
  exists f, d, pid, port. repeat split; try assumption.
  injection H1 as <-. injection H2 as <-. exact H6.
Defined.

(** The three ways [is_server_alive] leaves the state: untouched, with the
    clock advanced by a health request, or with the lock file removed. *)
Lemma is_server_alive_cases (self : t) (w w' : world) (r : result bool) :
  is_server_alive self w = (r, w') ->
  w' = w \/
  (exists c, w' = advance c w) \/
  (w' = set_lock None w /\ r = Ok false /\
   exists f d pid,
     w_lock w = Some f /\ lf_content f = Json (PDict d) /\
     d !! lit "pid" = Some pid /\ truthy pid = true /\
     _is_process_running self pid w = (Ok false, w)).
Proof.
  intros H.
  destruct (w_lock w) as [f|] eqn:Hf.
  - destruct (lf_content f) as [r0|r0|r0|r0|v] eqn:Hc.
    + unfold is_server_alive, mbind, M_bind, lock_exists in H.
      rewrite Hf, Hc in H. left. congruence.
    + rewrite (malformed_lock_tolerated self w f Hf
                 (or_introl (ex_intro _ r0 Hc))) in H.
      left. congruence.
    + unfold is_server_alive, mbind, M_bind, lock_exists, try_except,
        read_lock_json in H.
      rewrite Hf, Hc in H. cbn [negb] in H. rewrite Hf, Hc in H. cbn in H.
      left. congruence.
    + rewrite (malformed_lock_tolerated self w f Hf
                 (or_intror (or_introl (ex_intro _ r0 Hc)))) in H.
      left. congruence.
    + destruct v as [| | | | | |d];
        try (rewrite (non_object_lock_raises self w f _ Hf Hc) in H;
             [left; congruence | intros d'; discriminate]).
      rewrite (is_server_alive_steps self w f d Hf Hc) in H. cbv zeta in H.
      destruct (d !! lit "pid") as [pid|] eqn:Hpid;
        [|cbn in H; left; congruence].
      destruct (truthy pid) eqn:Ht; cbn [negb] in H; [|left; congruence].
      destruct (_is_process_running self pid w) as [[[|]|e] w1] eqn:Hrun;
        pose proof (is_process_running_state _ _ _ _ _ Hrun) as ->.
      * right. left. unfold _check_health in H.
        injection H as _ <-; eauto.
      * rewrite (remove_stale_lock_spec self w f Hf), Hc in H.
        injection H as <- <-.
        destruct (lf_removable f); [|now left].
        right. right. split; [reflexivity|]. split; [reflexivity|].
        now exists f, d, pid.
      * left. destruct (_ || _); congruence.
  - unfold is_server_alive, mbind, M_bind, lock_exists in H.
    rewrite Hf in H. left. now injection H as _ <-.
Qed.

(** X24.  [is_server_alive] leaves the process table as it is, and it
    leaves the lock file as it is unless it returns [False] after
    [os.kill(pid, 0)] failed for the recorded [pid]: only then is the lock
    file removed.  A lock file is never written or replaced. *)
Theorem is_server_alive_effects (self : t) (w w' : world) (r : result bool) :
  is_server_alive self w = (r, w') ->
  w_procs w' = w_procs w /\
  (w_lock w' = w_lock w \/
   (w_lock w' = None /\ r = Ok false /\
    exists f d pid,
      w_lock w = Some f /\ lf_content f = Json (PDict d) /\
      d !! lit "pid" = Some pid /\
      _is_process_running self pid w = (Ok false, w))).
Proof.
  intros H.
  destruct (is_server_alive_cases _ _ _ _ H)
    as [->|[[c ->]|(-> & -> & f & d & pid & H1 & H2 & H3 & _ & H5)]].
  - split; [reflexivity | now left].
  - split; [reflexivity | now left].
  - split; [reflexivity|]. right. split; [reflexivity|].
    split; [reflexivity|]. now exists f, d, pid.
Qed.

Lemma is_server_alive_effects_witness :
  w_procs (set_lock None Sample.stale_world) = w_procs Sample.stale_world.
Proof.
  apply (is_server_alive_effects Sample.manager Sample.stale_world
           (set_lock None Sample.stale_world) (Ok false)).
  reflexivity.
Defined.

(** *** The polling loop *)

Lemma wait_loop_inv (self : t) (start_time : nat) (fuel : nat) (w w' : world)
    (r : result unit) :
  (start_time <= w_clock w)%nat ->
  (HEALTH_CHECK_TIMEOUT * 1000 <
     w_clock w - start_time + fuel * HEALTH_CHECK_INTERVAL_MS)%nat ->
  wait_loop fuel self start_time w = (r, w') ->
  same_machine w w' /\
  (w_clock w <= w_clock w')%nat /\
  (w_polls w <= w_polls w')%nat /\
  (100 * (w_polls w' - w_polls w) + Nat.min (w_clock w - start_time) (10 * 1000)
     <= 10 * 1000 + 99)%nat /\
  (r = Ok tt ->
     (w_polls w < w_polls w')%nat /\
     exists t, (w_clock w <= t)%nat /\
       w_health w t (PInt (_port self)) 2 = true /\
       w_clock w' = (t + w_latency w t (PInt (_port self)) 2)%nat) /\
  (forall e, r = Raise e ->
     e = Exn Exception health_timeout_msg /\
     (start_time + 10 * 1000 <= w_clock w')%nat).
Proof.
  unfold HEALTH_CHECK_TIMEOUT, HEALTH_CHECK_INTERVAL_MS, same_machine.
  revert w. induction fuel as [|fuel IH]; intros w Hs Hb.
  - intros [= <- <-].
    repeat split; try reflexivity; try lia; try discriminate;
      match goal with
      | H : Raise _ = Raise _ |- _ => injection H as <-; (reflexivity || lia)
      end.
  - rewrite wait_loop_succ. unfold HEALTH_CHECK_TIMEOUT.
    destruct (Nat.ltb_spec (w_clock w - start_time) (10 * 1000)) as [Hlt|Hge].
    + unfold _check_health. cbn [w_latency w_health w_clock count_poll].
      destruct (w_health w (w_clock w) (PInt (_port self)) 2) eqn:Hh.
      * cbv beta iota zeta. intros [= <- <-].
        cbn [w_lock w_procs w_launches w_health w_latency w_oversleep
             w_clock w_polls advance count_poll].
        repeat split; try reflexivity; try lia; try discriminate.
        exists (w_clock w). now repeat split.
      * cbv beta iota zeta. intros H.
        apply IH in H;
          [|cbn [w_clock advance count_poll]; lia
           |cbn [w_clock advance count_poll w_oversleep];
            unfold HEALTH_CHECK_INTERVAL_MS; lia].
        cbn [w_lock w_procs w_launches w_health w_latency w_oversleep
             w_clock w_polls advance count_poll] in H.
        unfold HEALTH_CHECK_INTERVAL_MS in H.
        destruct H as (Hfr & Hc & Hp & Hn & Hok & Hraise).
        split; [exact Hfr|].
        split; [lia|]. split; [lia|]. split; [lia|]. split.
        -- intros Hr. destruct (Hok Hr) as [Hp' (t & Ht & Hht & Hct)].
           split; [lia|]. exists t. split; [lia|]. now split.
        -- intros e He. destruct (Hraise e He) as [He' Hc'].
           split; [exact He' | lia].
    + intros [= <- <-].
      repeat split; try reflexivity; try lia; try discriminate;
        match goal with
        | H : Raise _ = Raise _ |- _ => injection H as <-; (reflexivity || lia)
        end.
Qed.

(** What a call of [_wait_for_health] leaves behind. *)
Lemma wait_for_health_post (self : t) (w w' : world) (r : result unit) :
  _wait_for_health self w = (r, w') ->
  same_machine w w' /\
  (w_polls w' <= w_polls w + 100)%nat /\
  (r = Ok tt ->
     (w_polls w < w_polls w')%nat /\
     exists t, (w_clock w <= t)%nat /\
       w_health w t (PInt (_port self)) 2 = true /\
       w_clock w' = (t + w_latency w t (PInt (_port self)) 2)%nat) /\
  (forall e, r = Raise e ->
     e = Exn Exception health_timeout_msg /\
     (w_clock w + 10 * 1000 <= w_clock w')%nat).
Proof.
  unfold _wait_for_health. intros H.
  apply wait_loop_inv in H; [|lia|].
  - destruct H as (Hfr & Hc & Hp & Hn & Hok & Hraise).
    split; [exact Hfr|]. split; [lia|]. split; assumption.
  - change wait_fuel with 101%nat.
    unfold HEALTH_CHECK_TIMEOUT, HEALTH_CHECK_INTERVAL_MS. lia.
Qed.



(** *** [ensure_server_running] *)

(** What a call of [_start_server_via_launcher] does to the state: nothing
    when no launcher is found, one run of the launcher otherwise. *)
Lemma start_server_cases (self : t) (w w' : world) (r : result unit) :
  _start_server_via_launcher self w = (r, w') ->
  (w' = w /\ r = Raise (Exn Exception launcher_not_found_msg)) \/
  (exists launcher, find_launcher w = Some launcher /\ launcher <> [] /\
     w' = after_run (w_run w (launcher_cmd w launcher)) w /\
     (r = Ok tt ->
      exists out err,
        rr_outcome (w_run w (launcher_cmd w launcher)) = Completed 0 out err) /\
     (forall e, r = Raise e -> exn_cls e = Exception)).
Proof.
  unfold _start_server_via_launcher.
  destruct (find_launcher w) as [[|c l]|];
    [intros [= <- <-]; now left | | intros [= <- <-]; now left].
  intros H. right. exists (c :: l).
  split; [reflexivity|]. split; [discriminate|].
  unfold try_except, mbind, M_bind, subprocess_run, raise in H.
  destruct (rr_outcome (w_run w (launcher_cmd w (c :: l))))
    as [rc out err| |e].
  - destruct (Z.eqb_spec rc 0) as [->|Hrc]; cbn in H; injection H as <- <-.
    + split; [reflexivity|]. split; [intros _; now exists out, err|].
      discriminate.
    + split; [reflexivity|]. split; [discriminate|]. now intros e [= <-].
  - cbn in H. injection H as <- <-.
    split; [reflexivity|]. split; [discriminate|]. now intros e [= <-].
  - destruct e as [cls msg]. destruct cls; cbn in H;
      injection H as <- <-;
      (split; [reflexivity|]; split; [discriminate|]; now intros e' [= <-]).
Qed.



Lemma is_server_alive_oracles (self : t) (w w' : world) (r : result bool) :
  is_server_alive self w = (r, w') ->
  w_health w' = w_health w /\ w_latency w' = w_latency w /\
  (w_clock w <= w_clock w')%nat.
Proof.
  intros H. destruct (is_server_alive_cases _ _ _ _ H)
    as [->|[[c ->]|[-> _]]]; cbn; repeat split; lia.
Qed.

(** X27.  When [ensure_server_running] returns, a health request has just
    been answered: either the alive check succeeded, on the port of the lock
    file, or the launcher ended with return code 0 and a request of the
    polling loop succeeded, on the port of the URL the supervisor was
    created with, not on the port of the lock file.  In both cases the call
    ends with the request that was answered. *)
Theorem ensure_server_running_sound (self : t) (w w' : world) :
  ensure_server_running self w = (Ok tt, w') ->
  (is_server_alive self w = (Ok true, w') /\
   w_launches w' = w_launches w /\
   exists port,
     w_health w (w_clock w) port 1 = true /\
     w_clock w' = (w_clock w + w_latency w (w_clock w) port 1)%nat) \/
  (exists w1,
     is_server_alive self w = (Ok false, w1) /\
     w_launches w' = S (w_launches w) /\
     exists t, (w_clock w <= t)%nat /\
       w_health w t (PInt (_port self)) 2 = true /\
       w_clock w' = (t + w_latency w t (PInt (_port self)) 2)%nat).
Proof.
  unfold ensure_server_running, mbind, M_bind.
  destruct (is_server_alive self w) as [[[|]|e] w1] eqn:Ha; [| |discriminate].
  - intros [= <-]. left. split; [reflexivity|].
    destruct (quiet_is_server_alive self _ _ _ Ha) as [Hl _].
    split; [exact Hl|].
    destruct (is_server_alive_true _ _ _ Ha)
      as (f & d & pid & _ & _ & _ & _ & _ & Hh & ->).
    exists (lock_port d). split; [exact Hh | reflexivity].
  - destruct (_start_server_via_launcher self w1) as [[[]|e] w2] eqn:Hs;
      [|discriminate].
    intros Hw. right. exists w1. split; [reflexivity|].
    destruct (quiet_is_server_alive self _ _ _ Ha) as [Hl _].
    destruct (is_server_alive_oracles _ _ _ _ Ha) as (Hh1 & Hl1 & Hc1).
    destruct (wait_for_health_post _ _ _ _ Hw)
      as ((_ & _ & H2 & _) & _ & Hok & _).
    destruct (Hok eq_refl) as [_ (t & Ht & Hh & Hc)].
    destruct (start_server_cases _ _ _ _ Hs)
      as [[_ ?]|(l & _ & _ & -> & _)]; [discriminate|].
    cbn in H2, Hh, Hc, Ht. split; [lia|].
    exists t. rewrite <- Hh1, <- Hl1. split; [lia|]. now split.
Qed.

Lemma ensure_server_running_sound_witness :
  exists w',
    ensure_server_running Sample.manager launching_world = (Ok tt, w') /\
    w_launches w' = 1%nat /\
    w_health launching_world 300 (PInt 3847) 2 = true /\
    w_clock w' = (300 + 3500)%nat.
Proof.
  destruct (ensure_server_running Sample.manager launching_world)
    as [r w'] eqn:E.
  assert (Hr : r = Ok tt).
  { apply (f_equal fst) in E. vm_compute in E. now rewrite <- E. }
  subst r. exists w'. split; [reflexivity|].
  destruct (ensure_server_running_sound Sample.manager launching_world w' E)
    as [[Ha _]|(w1 & _ & H1 & t & _ & _ & H2)].
  - apply (f_equal fst) in Ha. vm_compute in Ha. discriminate.
  - split; [exact H1|]. split; [reflexivity|].
    apply (f_equal (fun x => w_clock (snd x))) in E. vm_compute in E.
    symmetry. exact E.
Defined.

(** X28.  When the server is not alive and no launcher is found, neither
    next to the package nor on the search path, [ensure_server_running]
    raises [pmxt-ensure-server not found] at once: nothing is run and the
    polling loop is not entered. *)
Theorem launcher_missing (self : t) (w w1 : world) :
  is_server_alive self w = (Ok false, w1) ->
  find_launcher w1 = None \/ find_launcher w1 = Some [] ->
  ensure_server_running self w =
    (Raise (Exn Exception launcher_not_found_msg), w1) /\
  w_launches w1 = w_launches w /\ w_polls w1 = w_polls w.
Proof.
  intros Ha Hf. split; [|exact (quiet_is_server_alive self _ _ _ Ha)].
  unfold ensure_server_running, mbind, M_bind. rewrite Ha.
  unfold _start_server_via_launcher. now destruct Hf as [-> | ->].
Qed.

Lemma launcher_missing_witness :
  ensure_server_running Sample.manager no_launcher_world =
    (Raise (Exn Exception launcher_not_found_msg), no_launcher_world).
Proof.
  apply (launcher_missing Sample.manager no_launcher_world no_launcher_world).
  - reflexivity.
  - now left.
Defined.

(** X29.  When the server is not alive and the launcher does not end
    within the time allowed, [ensure_server_running] raises
    [Server startup timeout]; when the launcher cannot be run at all, it
    raises [Failed to start server:] followed by the text of the error.
    In both cases the polling loop is not entered. *)
Theorem launcher_abnormal_end (self : t) (w w1 : world) (launcher : str) :
  is_server_alive self w = (Ok false, w1) ->
  find_launcher w1 = Some launcher -> launcher <> [] ->
  (rr_outcome (w_run w1 (launcher_cmd w1 launcher)) = TimedOut ->
   exists w2,
     ensure_server_running self w =
       (Raise (Exn Exception (lit "Server startup timeout")), w2) /\
     w_polls w2 = w_polls w) /\
  (forall e,
     rr_outcome (w_run w1 (launcher_cmd w1 launcher)) = RunError e ->
     exn_cls e <> TimeoutExpired ->
     exists w2,
       ensure_server_running self w =
         (Raise (Exn Exception (lit "Failed to start server: " ++ exn_msg e)), w2)
       /\ w_polls w2 = w_polls w).
Proof.
  intros Ha Hf Hne.
  destruct (quiet_is_server_alive self _ _ _ Ha) as [_ Hp].
  destruct launcher as [|c l]; [congruence|].
  split.
  - intros Hrun.
    exists (after_run (w_run w1 (launcher_cmd w1 (c :: l))) w1).
    split; [|exact Hp].
    unfold ensure_server_running, mbind, M_bind. rewrite Ha.
    unfold _start_server_via_launcher. rewrite Hf.
    unfold try_except, mbind, M_bind, subprocess_run. rewrite Hrun.
    reflexivity.
  - intros e Hrun He.
    exists (after_run (w_run w1 (launcher_cmd w1 (c :: l))) w1).
    split; [|exact Hp].
    unfold ensure_server_running, mbind, M_bind. rewrite Ha.
    unfold _start_server_via_launcher. rewrite Hf.
    unfold try_except, mbind, M_bind, subprocess_run. rewrite Hrun.
    destruct e as [cls msg]. cbn in He.
    destruct cls; cbn; try reflexivity. congruence.
Qed.

Lemma launcher_abnormal_end_witness :
  exists w2,
    ensure_server_running Sample.manager hanging_launcher_world =
      (Raise (Exn Exception (lit "Server startup timeout")), w2) /\
    w_polls w2 = 0%nat.
Proof.
  destruct (launcher_abnormal_end Sample.manager hanging_launcher_world
              hanging_launcher_world (lit "/usr/local/bin/pmxt-ensure-server"))
    as [H _].
  - reflexivity.
  - reflexivity.
  - discriminate.
  - apply H. reflexivity.
Defined.

(** X30.  [get_server_info] never changes the state, and the one case in
    which it raises is the failure of the existence test of the lock path
    itself, which is made outside the [try].  Otherwise it returns the
    document of the lock file when the file can be read and parsed, of
    whatever type the document is, and [None] in every other case, so that
    a lock file holding [null] cannot be told from a missing one. *)
Theorem get_server_info_reads (self : t) (w : world) :
  get_server_info self w =
    (match w_lock w with
     | Some f =>
         match lf_content f with
         | Unreachable reason => Raise (Exn OSError reason)
         | Json v => Ok v
         | _ => Ok PNone
         end
     | None => Ok PNone
     end, w).
Proof.
  unfold get_server_info, mbind, M_bind, lock_exists, try_except, read_lock_json.
  destruct (w_lock w) as [f|] eqn:Hf; cbn [negb]; [|reflexivity].
  destruct (lf_content f) eqn:Hc; cbn [negb]; try rewrite Hf, Hc; reflexivity.
Qed.

(** On a lock path in a directory that cannot be searched, both
    [get_server_info] and [is_server_alive] raise the [PermissionError] of
    the existence test. *)
Lemma unreachable_lock_raises :
  get_server_info Sample.manager Sample.hidden_lock_world =
    (Raise (Exn OSError
              (lit "[Errno 13] Permission denied: '/home/user/.pmxt/server.lock'")),
     Sample.hidden_lock_world) /\
  is_server_alive Sample.manager Sample.hidden_lock_world =
    (Raise (Exn OSError
              (lit "[Errno 13] Permission denied: '/home/user/.pmxt/server.lock'")),
     Sample.hidden_lock_world).
Proof. split; reflexivity. Qed.

(** A lock file that records the pid [-1] is not stale while another
    process can be signalled: [os.kill(-1, 0)] succeeds, the health request
    is made and the lock file stays. *)
Lemma group_pid_lock_kept :
  is_server_alive Sample.manager
    (Sample.machine (Some (Sample.lock_of (Sample.lock_data (-1))))
       (Sample.process 4242)) =
    (Ok false,
     advance 5 (Sample.machine (Some (Sample.lock_of (Sample.lock_data (-1))))
                  (Sample.process 4242))).
Proof. reflexivity. Qed.

End SupervisorMore.
